(** * The Google GenAI provider of langchainjs: embeddings client and tool
    normaliser

    A shallow embedding of
    - [libs/providers/langchain-google-genai/src/embeddings.ts]
      (class [GoogleGenerativeAIEmbeddings]) and
    - [libs/providers/langchain-google-genai/src/utils/tools.ts]
      ([convertToolsToGenAI], [processTools], [convertOpenAIToolToGenAI],
      [createToolConfig]),
    followed by the properties the specification states about them.

    Conventions.  A JavaScript [number] is an IEEE 754 binary64 value, so it
    is a primitive [float].  An optional property [f?: T] is [option T]
    ([None] is [undefined]).  A string is truthy when it is not empty, an
    array is always truthy.  A function that can throw returns
    [string + A], the message on the left.  The vendor SDK is a parameter:
    a function from the position of a call and its request to the way the
    returned promise settles. *)

From Stdlib Require Import Floats Ascii String.
From stdpp Require Import base option list strings gmap.

Set Warnings "-register-all".

Open Scope string_scope.
Open Scope list_scope.

(** ** JavaScript helpers *)

(** Truthiness of a string: every string but the empty one. *)
Definition truthy (s : string) : bool :=
  match s with
  | EmptyString => false
  | String _ _ => true
  end.

(** Truthiness of an optional string property. *)
Definition truthy_opt (o : option string) : bool :=
  match o with
  | Some s => truthy s
  | None => false
  end.

(** [a ?? b] *)
Definition nullish {A} (a : option A) (b : option A) : option A :=
  match a with
  | Some x => Some x
  | None => b
  end.

Infix "??" := nullish (at level 61, left associativity).

(** The line feed, the only character the pattern [/\n/g] matches. *)
Definition LF : ascii := Ascii.ascii_of_nat 10.
Definition SP : ascii := Ascii.ascii_of_nat 32.

(** [s.replace(/\n/g, " ")] *)
Fixpoint replace_newlines (s : string) : string :=
  match s with
  | EmptyString => EmptyString
  | String c r =>
      String (if Ascii.eqb c LF then SP else c) (replace_newlines r)
  end.

(** [s.replace(/^models\//, "")]: the pattern is anchored, so at most the
    one occurrence at the start is removed. *)
Fixpoint strip_prefix (p s : string) : option string :=
  match p with
  | EmptyString => Some s
  | String a p' =>
      match s with
      | String b s' => if Ascii.eqb a b then strip_prefix p' s' else None
      | EmptyString => None
      end
  end.

Definition replace_models_prefix (s : string) : string :=
  match strip_prefix "models/" s with
  | Some r => r
  | None => s
  end.

(** How a promise settles ([PromiseSettledResult]). *)
Inductive PromiseSettledResult (A : Type) : Type :=
  | fulfilled (value : A)
  | rejected (reason : string).
Arguments fulfilled {A} value.
Arguments rejected {A} reason.

(** ** Embeddings ([embeddings.ts]) *)

Module Embeddings.

(** [GoogleGenerativeAIEmbeddingsParams], the constructor's [fields]. *)
Record GoogleGenerativeAIEmbeddingsParams : Type := mkParams {
  p_modelName : option string;
  p_model : option string;
  p_taskType : option string;
  p_title : option string;
  p_outputDimensionality : option float;
  p_stripNewLines : option bool;
  p_apiKey : option string;
  p_baseUrl : option string
}.

(** [{}] *)
Definition noFields : GoogleGenerativeAIEmbeddingsParams :=
  mkParams None None None None None None None None.

(** [EmbedContentConfig], restricted to the keys the class writes. *)
Record EmbedContentConfig : Type := mkConfig {
  c_taskType : option string;
  c_title : option string;
  c_outputDimensionality : option float
}.

(** One for a key that was assigned, zero for one that was not. *)
Definition own_key {A} (o : option A) : nat :=
  match o with
  | Some _ => 1
  | None => 0
  end.

(** [Object.keys(config).length] *)
Definition keys_length (c : EmbedContentConfig) : nat :=
  own_key (c_taskType c) + own_key (c_title c)
  + own_key (c_outputDimensionality c).

(** The argument of [client.models.embedContent]. *)
Record EmbedContentParameters : Type := mkRequest {
  r_model : string;
  r_contents : list string;
  r_config : option EmbedContentConfig
}.

Record ContentEmbedding : Type := mkEmbedding {
  values : option (list float)
}.

Record EmbedContentResponse : Type := mkResponse {
  embeddings : option (list ContentEmbedding)
}.

(** The options [new GoogleGenAI] is built from. *)
Record GoogleGenAIOptions : Type := mkClient {
  o_apiKey : string;
  o_baseUrl : option string
}.

(** The instance. *)
Record GoogleGenerativeAIEmbeddings : Type := mkEmbeddings {
  apiKey : option string;
  modelName : string;
  model : string;
  taskType : option string;
  title : option string;
  outputDimensionality : option float;
  stripNewLines : bool;
  maxBatchSize : nat;
  client : GoogleGenAIOptions
}.

Definition title_error : string :=
  "title can only be specified when taskType is set to 'RETRIEVAL_DOCUMENT'".

Definition apiKey_error : string :=
  "Please set an API key for Google GenerativeAI " +:+
  "in the environmentb variable GOOGLE_API_KEY " +:+
  "or in the `apiKey` field of the " +:+
  "GoogleGenerativeAIEmbeddings constructor".

(** The constructor.  [env] is the process environment behind
    [getEnvironmentVariable]; [fields] is optional.  The class field
    initialisers give the defaults ["embedding-001"], [true] and [100];
    the constructor never reads [fields.stripNewLines]. *)
Definition constructor (env : string -> option string)
    (fields : option GoogleGenerativeAIEmbeddingsParams)
  : string + GoogleGenerativeAIEmbeddings :=
  let modelName0 := "embedding-001" in
  let modelName1 :=
    default modelName0
      ((replace_models_prefix <$> (fields ≫= p_model)) ??
       (replace_models_prefix <$> (fields ≫= p_modelName))) in
  let model1 := modelName1 in
  let taskType1 := (fields ≫= p_taskType) ?? None in
  let title1 := (fields ≫= p_title) ?? None in
  let outputDimensionality1 := (fields ≫= p_outputDimensionality) ?? None in
  if truthy_opt title1 &&
     negb (bool_decide (taskType1 = Some "RETRIEVAL_DOCUMENT"))
  then inl title_error
  else
    let apiKey1 := (fields ≫= p_apiKey) ?? env "GOOGLE_API_KEY" in
    match apiKey1 with
    | Some k =>
        if truthy k then
          inr {| apiKey := apiKey1;
                 modelName := modelName1;
                 model := model1;
                 taskType := taskType1;
                 title := title1;
                 outputDimensionality := outputDimensionality1;
                 stripNewLines := true;
                 maxBatchSize := 100;
                 client :=
                   {| o_apiKey := k;
                      o_baseUrl :=
                        if truthy_opt (fields ≫= p_baseUrl)
                        then fields ≫= p_baseUrl else None |} |}
        else inl apiKey_error
    | None => inl apiKey_error
    end.

(** [_cleanText] *)
Definition _cleanText (this : GoogleGenerativeAIEmbeddings) (text : string)
  : string :=
  let cleanedText :=
    if stripNewLines this then replace_newlines text else text in
  cleanedText.

(** [_embedConfig] *)
Definition _embedConfig (this : GoogleGenerativeAIEmbeddings)
  : option EmbedContentConfig :=
  let config := mkConfig None None None in
  let config :=
    if truthy_opt (taskType this)
    then mkConfig (taskType this) (c_title config)
                  (c_outputDimensionality config)
    else config in
  let config :=
    if truthy_opt (title this)
    then mkConfig (c_taskType config) (title this)
                  (c_outputDimensionality config)
    else config in
  let config :=
    match outputDimensionality this with
    | Some d => mkConfig (c_taskType config) (c_title config) (Some d)
    | None => config
    end in
  if bool_decide (0 < keys_length config) then Some config else None.

(** The vendor SDK behind [client.models.embedContent]: how the promise
    of the [n]-th call (counted from zero over the life of the client)
    settles, given its request.  A mock that answers differently from call
    to call is such a function. *)
Definition Vendor : Type :=
  nat -> EmbedContentParameters -> PromiseSettledResult EmbedContentResponse.

(** The state an embedding call runs in: the vendor, and the requests sent
    to it so far, oldest first. *)
Record World : Type := mkWorld {
  vendor : Vendor;
  sent : list EmbedContentParameters
}.

(** [this.client.models.embedContent(params)]: the request is recorded and
    the promise settles as the vendor decides. *)
Definition embedContent (params : EmbedContentParameters) (w : World)
  : PromiseSettledResult EmbedContentResponse * World :=
  (vendor w (length (sent w)) params,
   {| vendor := vendor w; sent := sent w ++ [params] |}).

(** [res.embeddings?.[0]?.values ?? []] *)
Definition first_values (res : EmbedContentResponse) : list float :=
  default []
    (es ← embeddings res; e ← (es : list ContentEmbedding) !! 0; values e).

(** [_embedQueryContent]: [await] rethrows the reason of a rejected call. *)
Definition _embedQueryContent (this : GoogleGenerativeAIEmbeddings)
    (text : string) (w : World)
  : PromiseSettledResult (list float) * World :=
  let '(settled, w') :=
    embedContent
      {| r_model := model this;
         r_contents := [_cleanText this text];
         r_config := _embedConfig this |} w in
  match settled with
  | fulfilled res => (fulfilled (first_values res), w')
  | rejected reason => (rejected reason, w')
  end.

(** Modelled from the spec: [chunkArray], imported from
    [@langchain/core/utils/chunk_array], is not among the sources.  The
    spec has the batch path split "the input list into fixed-size chunks
    (size = vendor's maximum batch size)": chunks of [chunkSize] items in
    input order, the last one holding what remains.  [fuel] bounds the
    number of chunks; [chunkArray] gives it the length of the list. *)
Fixpoint chunks_upto {A} (fuel : nat) (arr : list A) (chunkSize : nat)
  : list (list A) :=
  match fuel, arr with
  | S fuel', _ :: _ =>
      take chunkSize arr :: chunks_upto fuel' (drop chunkSize arr) chunkSize
  | _, _ => []
  end.

Definition chunkArray {A} (arr : list A) (chunkSize : nat) : list (list A) :=
  chunks_upto (length arr) arr chunkSize.

(** [Promise.allSettled(calls)] for calls started one after the other, as
    [Array.prototype.map] starts them: every call is issued, whatever the
    others do, and the outcomes come back in the order of the calls. *)
Fixpoint allSettled {A}
    (calls : list (World -> PromiseSettledResult A * World)) (w : World)
  : list (PromiseSettledResult A) * World :=
  match calls with
  | [] => ([], w)
  | call :: rest =>
      let '(r, w1) := call w in
      let '(rs, w2) := allSettled rest w1 in
      (r :: rs, w2)
  end.

Definition undefined_length_error : string :=
  "TypeError: Cannot read properties of undefined (reading 'length')".

(** The callback of [responses.flatMap]; [None] is the [TypeError] of
    [batchEmbedChunks[idx].length] for an [idx] out of range. *)
Definition flatMap_callback (batchEmbedChunks : list (list string))
    (idx : nat) (res : PromiseSettledResult EmbedContentResponse)
  : option (list (list float)) :=
  match res with
  | fulfilled value =>
      Some (default []
              (map (fun e => default [] (values e)) <$> embeddings value))
  | rejected _ =>
      chunk ← batchEmbedChunks !! idx;
      Some (replicate (length chunk) [])
  end.

(** [_embedDocumentsContent] *)
Definition _embedDocumentsContent (this : GoogleGenerativeAIEmbeddings)
    (documents : list string) (w : World)
  : PromiseSettledResult (list (list float)) * World :=
  let batchEmbedChunks := chunkArray documents (maxBatchSize this) in
  let '(responses, w') :=
    allSettled
      (map (fun chunk =>
              embedContent
                {| r_model := model this;
                   r_contents := map (fun doc => _cleanText this doc) chunk;
                   r_config := _embedConfig this |})
           batchEmbedChunks) w in
  match mapM id (imap (flatMap_callback batchEmbedChunks) responses) with
  | Some pieces => (fulfilled (concat pieces), w')
  | None => (rejected undefined_length_error, w')
  end.

(** *** Vocabulary for the statements below *)

(** The requests that reached the vendor between two states. *)
Definition issued (before after : World) : list EmbedContentParameters :=
  drop (length (sent before)) (sent after).

(** The request the batch path builds for one chunk. *)
Definition chunk_request (this : GoogleGenerativeAIEmbeddings)
    (chunk : list string) : EmbedContentParameters :=
  {| r_model := model this;
     r_contents := map (_cleanText this) chunk;
     r_config := _embedConfig this |}.

(** How the vendor settles the call for each chunk of [documents], when the
    batch path starts in [w]. *)
Definition outcomes (this : GoogleGenerativeAIEmbeddings)
    (documents : list string) (w : World)
  : list (PromiseSettledResult EmbedContentResponse) :=
  imap (fun k chunk => vendor w (length (sent w) + k) (chunk_request this chunk))
       (chunkArray documents (maxBatchSize this)).

(** The vector an outcome offers for the [j]-th item of its chunk: the
    values of the [j]-th embedding of a fulfilled call, the empty vector
    for a rejected call. *)
Definition slot (o : option (PromiseSettledResult EmbedContentResponse))
    (j : nat) : list float :=
  match o with
  | Some (fulfilled res) =>
      default []
        (es ← embeddings res; e ← (es : list ContentEmbedding) !! j; values e)
  | _ => []
  end.

(** A fulfilled call answers with one embedding per item it was sent. *)
Definition one_embedding_per_item (this : GoogleGenerativeAIEmbeddings)
    (documents : list string) (w : World) : Prop :=
  forall k chunk res,
    chunkArray documents (maxBatchSize this) !! k = Some chunk ->
    outcomes this documents w !! k = Some (fulfilled res) ->
    exists es, embeddings res = Some es /\ length es = length chunk.

(** The model name the caller configured: [model], else its alias
    [modelName]. *)
Definition configured_model
    (fields : option GoogleGenerativeAIEmbeddingsParams) : option string :=
  (fields ≫= p_model) ?? (fields ≫= p_modelName).

(** No non-empty credential: whatever the [apiKey] field or the
    [GOOGLE_API_KEY] variable holds is the empty string. *)
Definition no_credential (env : string -> option string)
    (fields : option GoogleGenerativeAIEmbeddingsParams) : Prop :=
  forall k,
    fields ≫= p_apiKey = Some k \/ env "GOOGLE_API_KEY" = Some k -> k = "".

(** A non-empty title with a task type that is not ["RETRIEVAL_DOCUMENT"]
    (or with none). *)
Definition title_without_retrieval_document
    (fields : option GoogleGenerativeAIEmbeddingsParams) : Prop :=
  (exists t, fields ≫= p_title = Some t /\ t <> "")
  /\ fields ≫= p_taskType <> Some "RETRIEVAL_DOCUMENT".

(** *** Sample inputs *)

(** An environment without [GOOGLE_API_KEY]. *)
Definition empty_env : string -> option string := fun _ => None.

(** [{ apiKey: "test-key", outputDimensionality: 128 }] *)
Definition fields_128 : GoogleGenerativeAIEmbeddingsParams :=
  mkParams None None None None (Some 128%float) None (Some "test-key") None.

(** The instance [new GoogleGenerativeAIEmbeddings(fields_128)] builds. *)
Definition embeddings_128 : GoogleGenerativeAIEmbeddings :=
  {| apiKey := Some "test-key";
     modelName := "embedding-001";
     model := "embedding-001";
     taskType := None;
     title := None;
     outputDimensionality := Some 128%float;
     stripNewLines := true;
     maxBatchSize := 100;
     client := {| o_apiKey := "test-key"; o_baseUrl := None |} |}.

(** [{ apiKey: "test-key", model: "models/embedding-001",
       taskType: "RETRIEVAL_QUERY", outputDimensionality: 128 }] *)
Definition fields_prefixed : GoogleGenerativeAIEmbeddingsParams :=
  mkParams None (Some "models/embedding-001") (Some "RETRIEVAL_QUERY") None
           (Some 128%float) None (Some "test-key") None.

Definition embeddings_prefixed : GoogleGenerativeAIEmbeddings :=
  {| apiKey := Some "test-key";
     modelName := "embedding-001";
     model := "embedding-001";
     taskType := Some "RETRIEVAL_QUERY";
     title := None;
     outputDimensionality := Some 128%float;
     stripNewLines := true;
     maxBatchSize := 100;
     client := {| o_apiKey := "test-key"; o_baseUrl := None |} |}.

(** [{ apiKey: "test-key", title: "" }] *)
Definition fields_empty_title : GoogleGenerativeAIEmbeddingsParams :=
  mkParams None None None (Some "") None None (Some "test-key") None.

(** [{ apiKey: "test-key", title: "Report" }] *)
Definition fields_title_only : GoogleGenerativeAIEmbeddingsParams :=
  mkParams None None None (Some "Report") None None (Some "test-key") None.

(** A vendor that answers every call with the vector [[0.5, 0.25]] for each
    item it is sent. *)
Definition echo_vendor : Vendor :=
  fun _ req =>
    fulfilled
      {| embeddings :=
           Some (map (fun _ => {| values := Some [0.5%float; 0.25%float] |})
                     (r_contents req)) |}.

(** A vendor that fulfils every call with a response that has no
    [embeddings] property. *)
Definition silent_vendor : Vendor :=
  fun _ _ => fulfilled {| embeddings := None |}.

(** A vendor whose second call rejects; the others are [echo_vendor]'s. *)
Definition flaky_vendor : Vendor :=
  fun n req =>
    match n with
    | 1 => rejected "503"
    | _ => echo_vendor n req
    end.

(** [embeddings_128] after [maxBatchSize] (a public field) was set to 2. *)
Definition small_batches : GoogleGenerativeAIEmbeddings :=
  {| apiKey := Some "test-key";
     modelName := "embedding-001";
     model := "embedding-001";
     taskType := None;
     title := None;
     outputDimensionality := Some 128%float;
     stripNewLines := true;
     maxBatchSize := 2;
     client := {| o_apiKey := "test-key"; o_baseUrl := None |} |}.

(** [{ apiKey: "test-key", stripNewLines: false }] *)
Definition fields_keep_newlines : GoogleGenerativeAIEmbeddingsParams :=
  mkParams None None None None None (Some false) (Some "test-key") None.

(** The instance [new GoogleGenerativeAIEmbeddings(fields_keep_newlines)]
    builds. *)
Definition embeddings_plain : GoogleGenerativeAIEmbeddings :=
  {| apiKey := Some "test-key";
     modelName := "embedding-001";
     model := "embedding-001";
     taskType := None;
     title := None;
     outputDimensionality := None;
     stripNewLines := true;
     maxBatchSize := 100;
     client := {| o_apiKey := "test-key"; o_baseUrl := None |} |}.

(** [{ title: "Report" }], without any credential. *)
Definition fields_title_no_key : GoogleGenerativeAIEmbeddingsParams :=
  mkParams None None None (Some "Report") None None None None.

(** [{ apiKey: "test-key", taskType: "RETRIEVAL_DOCUMENT",
       title: "Report" }] *)
Definition fields_titled : GoogleGenerativeAIEmbeddingsParams :=
  mkParams None None (Some "RETRIEVAL_DOCUMENT") (Some "Report") None None
           (Some "test-key") None.

Definition embeddings_titled : GoogleGenerativeAIEmbeddings :=
  {| apiKey := Some "test-key";
     modelName := "embedding-001";
     model := "embedding-001";
     taskType := Some "RETRIEVAL_DOCUMENT";
     title := Some "Report";
     outputDimensionality := None;
     stripNewLines := true;
     maxBatchSize := 100;
     client := {| o_apiKey := "test-key"; o_baseUrl := None |} |}.

(** A vendor that rejects every call. *)
Definition failing_vendor : Vendor := fun _ _ => rejected "503".

(** A client that has sent nothing yet. *)
Definition fresh (v : Vendor) : World := {| vendor := v; sent := [] |}.

(** ["a\nb"] *)
Definition a_newline_b : string := String "a" (String LF (String "b" "")).

End Embeddings.

(** ** Tool normaliser ([utils/tools.ts]) *)

Module Tools.

(** A JavaScript value, as far as JSON schemas and tool objects need it. *)
Inductive JsValue : Type :=
  | JUndefined
  | JNull
  | JBool (b : bool)
  | JNumber (n : float)
  | JString (s : string)
  | JArray (items : list JsValue)
  | JObject (props : list (string * JsValue)).

(** Modelled from the spec: [removeAdditionalProperties], imported from
    [./zod_to_genai_parameters.js], is not among the sources.  The spec has
    the parameters converted "with any [additionalProperties] key
    stripped, since the vendor schema dialect forbids it": the key is
    dropped from every object of the schema, at any depth, and nothing else
    changes. *)
Fixpoint removeAdditionalProperties (obj : JsValue) : JsValue :=
  match obj with
  | JObject props =>
      JObject
        ((fix strip (kvs : list (string * JsValue)) :=
            match kvs with
            | [] => []
            | (k, v) :: rest =>
                if String.eqb k "additionalProperties" then strip rest
                else (k, removeAdditionalProperties v) :: strip rest
            end) props)
  | JArray items => JArray (map removeAdditionalProperties items)
  | _ => obj
  end.

(** [FunctionDeclaration] of the vendor SDK. *)
Record FunctionDeclaration : Type := mkDeclaration {
  name : string;
  description : option string;
  parameters : JsValue
}.

(** [Tool] of the vendor SDK ([GenerativeAITool]).  The key
    [functionDeclarations] may be absent ([None]), present without a list
    ([Some None]) or present with one; [otherKeys] are the remaining
    properties (code execution, search, retrieval and so on). *)
Record GenerativeAITool : Type := mkTool {
  functionDeclarations : option (option (list FunctionDeclaration));
  otherKeys : list (string * JsValue)
}.

(** [{ functionDeclarations: decls }] *)
Definition group (decls : list FunctionDeclaration) : GenerativeAITool :=
  {| functionDeclarations := Some (Some decls); otherKeys := [] |}.

(** ["functionDeclarations" in t] *)
Definition has_functionDeclarations (t : GenerativeAITool) : bool :=
  match functionDeclarations t with
  | Some _ => true
  | None => false
  end.

(** [t.functionDeclarations], [undefined] when absent or not a list. *)
Definition get_functionDeclarations (t : GenerativeAITool)
  : option (list FunctionDeclaration) :=
  mjoin (functionDeclarations t).

(** [StructuredToolInterface]: a framework-native tool, with its schema in
    JSON-schema form. *)
Record StructuredToolInterface : Type := mkStructuredTool {
  st_name : string;
  st_description : string;
  st_schema : JsValue
}.

(** [FunctionDefinition] and [ToolDefinition]: an OpenAI-style tool
    [{ type: "function", function: { name, description?, parameters } }].
    The structural check only asks for the keys, so [parameters] is any
    value at all. *)
Record FunctionDefinition : Type := mkFunction {
  f_name : string;
  f_description : option string;
  f_parameters : JsValue
}.

Record ToolDefinition : Type := mkToolDefinition {
  function : FunctionDefinition
}.

(** Modelled from the spec: [isLangChainTool] and [isOpenAITool], imported
    from [@langchain/core], are not among the sources.  The spec has each
    input element "inspected to determine which of the three known shapes
    it is", a "shape discriminator with three outcomes": an element is a
    value of this three-way union and the two predicates read its tag. *)
Inductive GoogleGenerativeAIToolType : Type :=
  | LangChainTool (tool : StructuredToolInterface)
  | OpenAITool (tool : ToolDefinition)
  | NativeTool (tool : GenerativeAITool).

Definition isLangChainTool (tool : GoogleGenerativeAIToolType) : bool :=
  match tool with
  | LangChainTool _ => true
  | _ => false
  end.

Definition isOpenAITool (tool : GoogleGenerativeAIToolType) : bool :=
  match tool with
  | OpenAITool _ => true
  | _ => false
  end.

(** Modelled from the spec: [convertToGenerativeAITools], imported from
    [./common.js], is not among the sources.  The spec has a
    framework-native tool "converted to the vendor's function-declaration
    shape (name, description, JSON-schema parameters with any
    [additionalProperties] key stripped)": the result is one group holding
    one declaration per tool, in order. *)
Definition convertStructuredTool (tool : StructuredToolInterface)
  : FunctionDeclaration :=
  {| name := st_name tool;
     description := Some (st_description tool);
     parameters := removeAdditionalProperties (st_schema tool) |}.

Definition convertToGenerativeAITools (tools : list StructuredToolInterface)
  : list GenerativeAITool :=
  [group (map convertStructuredTool tools)].

(** [convertOpenAIToolToGenAI] *)
Definition convertOpenAIToolToGenAI (tool : ToolDefinition)
  : GenerativeAITool :=
  group
    [{| name := f_name (function tool);
        description := f_description (function tool);
        parameters := removeAdditionalProperties (f_parameters (function tool)) |}].

Definition conversion_error : string :=
  "Failed to convert OpenAI structured tool to GenerativeAI tool".

Definition undefined_property_error : string :=
  "TypeError: Cannot read properties of undefined (reading 'functionDeclarations')".

(** The [tools.forEach] loop of [processTools], threading the two arrays it
    pushes to; a [throw] in the callback ends the loop. *)
Fixpoint forEach_tool (tools : list GoogleGenerativeAIToolType)
    (functionDeclarationTools : list FunctionDeclaration)
    (genAITools : list GenerativeAITool)
  : string + (list FunctionDeclaration * list GenerativeAITool) :=
  match tools with
  | [] => inr (functionDeclarationTools, genAITools)
  | LangChainTool tool :: rest =>
      match convertToGenerativeAITools [tool] with
      | convertedTool :: _ =>
          match get_functionDeclarations convertedTool with
          | Some decls =>
              forEach_tool rest (functionDeclarationTools ++ decls) genAITools
          | None => forEach_tool rest functionDeclarationTools genAITools
          end
      | [] => inl undefined_property_error
      end
  | OpenAITool tool :: rest =>
      match get_functionDeclarations (convertOpenAIToolToGenAI tool) with
      | Some decls =>
          forEach_tool rest (functionDeclarationTools ++ decls) genAITools
      | None => inl conversion_error
      end
  | NativeTool tool :: rest =>
      forEach_tool rest functionDeclarationTools (genAITools ++ [tool])
  end.

(** The [genAITools.map] of [processTools]: the callback empties
    [functionDeclarationTools] once it has merged them, so the variable is
    threaded through the traversal. *)
Fixpoint merge_map (genAITools : list GenerativeAITool)
    (functionDeclarationTools : list FunctionDeclaration)
  : list GenerativeAITool :=
  match genAITools with
  | [] => []
  | tool :: rest =>
      if bool_decide (0 < length functionDeclarationTools)
         && has_functionDeclarations tool
      then
        let newTool :=
          group (default [] (get_functionDeclarations tool)
                 ++ functionDeclarationTools) in
        newTool :: merge_map rest []
      else tool :: merge_map rest functionDeclarationTools
  end.

(** [processTools] *)
Definition processTools (tools : list GoogleGenerativeAIToolType)
  : string + list GenerativeAITool :=
  match forEach_tool tools [] [] with
  | inl e => inl e
  | inr (functionDeclarationTools, genAITools) =>
      let genAIFunctionDeclaration :=
        List.find has_functionDeclarations genAITools in
      match genAIFunctionDeclaration with
      | Some _ => inr (merge_map genAITools functionDeclarationTools)
      | None =>
          inr (genAITools ++
               (if bool_decide (0 < length functionDeclarationTools)
                then [group functionDeclarationTools]
                else []))
      end
  end.

(** [FunctionCallingConfigMode] *)
Inductive FunctionCallingConfigMode : Type :=
  | MODE_UNSPECIFIED
  | AUTO
  | ANY
  | NONE
  | VALIDATED.

(** [ToolChoice]: a string or an object. *)
Inductive ToolChoice : Type :=
  | ChoiceString (s : string)
  | ChoiceObject (props : list (string * JsValue)).

Record FunctionCallingConfig : Type := mkCallingConfig {
  mode : FunctionCallingConfigMode;
  allowedFunctionNames : option (list string)
}.

Record ToolConfig : Type := mkToolConfig {
  functionCallingConfig : FunctionCallingConfig
}.

(** The optional second argument [extra]. *)
Record Extra : Type := mkExtra {
  toolChoice : option ToolChoice;
  e_allowedFunctionNames : option (list string)
}.

(** [modeMap] *)
Definition modeMap : gmap string FunctionCallingConfigMode :=
  {[ "any" := ANY; "auto" := AUTO; "none" := NONE ]}.

(** Truthiness of [toolChoice]: an object is truthy, a string when not
    empty, [undefined] is not. *)
Definition truthy_choice (c : option ToolChoice) : bool :=
  match c with
  | Some (ChoiceString s) => truthy s
  | Some (ChoiceObject _) => true
  | None => false
  end.

(** [typeof toolChoice === "string"] *)
Definition is_string (c : option ToolChoice) : bool :=
  match c with
  | Some (ChoiceString _) => true
  | _ => false
  end.

(** [names.includes(toolChoice as string)], by strict equality. *)
Definition includes (names : list string) (c : option ToolChoice) : bool :=
  match c with
  | Some (ChoiceString s) => bool_decide (s ∈ names)
  | _ => false
  end.

(** [modeMap[toolChoice as keyof typeof modeMap]] *)
Definition modeMap_get (c : option ToolChoice)
  : option FunctionCallingConfigMode :=
  match c with
  | Some (ChoiceString s) => modeMap !! s
  | _ => None
  end.

(** [createToolConfig] *)
Definition createToolConfig (genAITools : list GenerativeAITool)
    (extra : option Extra) : option ToolConfig :=
  match bool_decide (length genAITools = 0), extra with
  | false, Some extra' =>
      let toolChoice := toolChoice extra' in
      let allowedFunctionNames := e_allowedFunctionNames extra' in
      if truthy_choice toolChoice
         && includes ["any"; "auto"; "none"] toolChoice
      then
        Some {| functionCallingConfig :=
                  {| mode :=
                       default MODE_UNSPECIFIED (modeMap_get toolChoice);
                     allowedFunctionNames := allowedFunctionNames |} |}
      else if is_string toolChoice
              || bool_decide (is_Some allowedFunctionNames)
      then
        Some {| functionCallingConfig :=
                  {| mode := ANY;
                     allowedFunctionNames :=
                       Some (default [] allowedFunctionNames ++
                             match toolChoice with
                             | Some (ChoiceString s) =>
                                 if truthy s then [s] else []
                             | _ => []
                             end) |} |}
      else None
  | _, _ => None
  end.

(** The result of [convertToolsToGenAI]. *)
Record Converted : Type := mkConverted {
  tools : list GenerativeAITool;
  toolConfig : option ToolConfig
}.

(** [convertToolsToGenAI] *)
Definition convertToolsToGenAI (tools : list GoogleGenerativeAIToolType)
    (extra : option Extra) : string + Converted :=
  match processTools tools with
  | inl e => inl e
  | inr genAITools =>
      let toolConfig := createToolConfig genAITools extra in
      inr {| tools := genAITools; toolConfig := toolConfig |}
  end.

(** *** Vocabulary for the statements below *)

(** The declarations an input element converts to: those of the group the
    converter of its shape returns; a native tool is not converted. *)
Definition converted_declarations (tool : GoogleGenerativeAIToolType)
  : list FunctionDeclaration :=
  match tool with
  | LangChainTool t =>
      match convertToGenerativeAITools [t] with
      | convertedTool :: _ => default [] (get_functionDeclarations convertedTool)
      | [] => []
      end
  | OpenAITool t =>
      default [] (get_functionDeclarations (convertOpenAIToolToGenAI t))
  | NativeTool _ => []
  end.

(** The native tools of an input list, in order. *)
Definition native_tools (tools : list GoogleGenerativeAIToolType)
  : list GenerativeAITool :=
  omap (fun tool =>
          match tool with
          | NativeTool t => Some t
          | _ => None
          end) tools.

(** An element that is converted: framework-native or OpenAI-style. *)
Definition is_converted (tool : GoogleGenerativeAIToolType) : bool :=
  isLangChainTool tool || isOpenAITool tool.

(** Every declaration a list of vendor tools holds, group after group. *)
Definition all_declarations (genAITools : list GenerativeAITool)
  : list FunctionDeclaration :=
  concat (map (fun t => default [] (get_functionDeclarations t)) genAITools).

(** The name of an input element that is converted. *)
Definition tool_name (tool : GoogleGenerativeAIToolType) : option string :=
  match tool with
  | LangChainTool t => Some (st_name t)
  | OpenAITool t => Some (f_name (function t))
  | NativeTool _ => None
  end.

(** *** Sample inputs *)

(** [{ functionDeclarations: [search], googleSearch: {} }] *)
Definition search_group_with_keys : GenerativeAITool :=
  {| functionDeclarations :=
       Some (Some [{| name := "search";
                      description := Some "Search";
                      parameters := JUndefined |}]);
     otherKeys := [("googleSearch", JObject [])] |}.

Definition weather_tool : GoogleGenerativeAIToolType :=
  LangChainTool
    {| st_name := "get_weather";
       st_description := "Weather of a city";
       st_schema :=
         JObject
           [("type", JString "object");
            ("properties",
             JObject [("city", JObject [("type", JString "string")])]);
            ("additionalProperties", JBool false)] |}.

Definition weather_declaration : FunctionDeclaration :=
  {| name := "get_weather";
     description := Some "Weather of a city";
     parameters :=
       JObject
         [("type", JString "object");
          ("properties",
           JObject [("city", JObject [("type", JString "string")])])] |}.

Definition time_tool : GoogleGenerativeAIToolType :=
  OpenAITool
    {| function :=
         {| f_name := "get_time";
            f_description := None;
            f_parameters := JObject [("type", JString "object")] |} |}.

Definition time_declaration : FunctionDeclaration :=
  {| name := "get_time";
     description := None;
     parameters := JObject [("type", JString "object")] |}.

(** An OpenAI-style element of malformed shape: no name to speak of, and
    parameters that are not a schema object. *)
Definition malformed_tool : GoogleGenerativeAIToolType :=
  OpenAITool
    {| function :=
         {| f_name := "";
            f_description := None;
            f_parameters := JString "not a schema" |} |}.

(** [{ codeExecution: {} }] *)
Definition code_execution : GenerativeAITool :=
  {| functionDeclarations := None;
     otherKeys := [("codeExecution", JObject [])] |}.

Definition search_declaration : FunctionDeclaration :=
  {| name := "search"; description := Some "Search"; parameters := JUndefined |}.

Definition lookup_declaration : FunctionDeclaration :=
  {| name := "lookup"; description := None; parameters := JUndefined |}.

End Tools.


(** * Properties of the embeddings client *)

Section EmbeddingsProperties.

Import Embeddings.

(** ** Strings *)

Lemma replace_newlines_length (s : string) :
  String.length (replace_newlines s) = String.length s.
Proof. induction s as [|c r IH]; simpl; congruence. Qed.

Lemma replace_newlines_get (s : string) (i : nat) :
  String.get i (replace_newlines s)
  = (fun c => if Ascii.eqb c LF then SP else c) <$> String.get i s.
Proof.
  revert i; induction s as [|c r IH]; intros [|i]; simpl; auto.
Qed.

Lemma replace_newlines_no_LF (s : string) (i : nat) :
  String.get i (replace_newlines s) <> Some LF.
Proof.
  rewrite replace_newlines_get.
  destruct (String.get i s) as [c|]; simpl; [|discriminate].
  destruct (Ascii.eqb c LF) eqn:E.
  - discriminate.
  - intros [= ->]. now rewrite Ascii.eqb_refl in E.
Qed.

Lemma strip_prefix_append (p s : string) : strip_prefix p (p +:+ s) = Some s.
Proof.
  induction p as [|a p IH]; [reflexivity|].
  change (String a p +:+ s) with (String a (p +:+ s)); simpl.
  now rewrite Ascii.eqb_refl.
Qed.

Lemma strip_prefix_Some (p s r : string) :
  strip_prefix p s = Some r -> s = p +:+ r.
Proof.
  revert s; induction p as [|a p IH]; intros s; simpl.
  - now intros [= ->].
  - destruct s as [|b s]; [discriminate|].
    destruct (Ascii.eqb a b) eqn:E; [|discriminate].
    apply Ascii.eqb_eq in E as ->. intros H.
    now rewrite (IH s H).
Qed.

Lemma replace_models_prefix_strips (s : string) :
  replace_models_prefix ("models/" +:+ s) = s.
Proof. unfold replace_models_prefix. now rewrite strip_prefix_append. Qed.

Lemma replace_models_prefix_keeps (s : string) :
  (forall r, s <> "models/" +:+ r) -> replace_models_prefix s = s.
Proof.
  intros H. unfold replace_models_prefix.
  destruct (strip_prefix "models/" s) as [r|] eqn:E; [|reflexivity].
  apply strip_prefix_Some in E. now destruct (H r).
Qed.

(** ** The requests a call sends *)

Lemma issued_app (w : World) (v : Vendor) (new : list EmbedContentParameters) :
  issued w {| vendor := v; sent := sent w ++ new |} = new.
Proof. unfold issued; simpl. now rewrite drop_app_length. Qed.

Lemma embedQueryContent_world this text w :
  (_embedQueryContent this text w).2
  = {| vendor := vendor w;
       sent := sent w ++ [chunk_request this [text]] |}.
Proof.
  unfold _embedQueryContent, embedContent, chunk_request; simpl.
  now destruct (vendor w _ _).
Qed.

Lemma embedQueryContent_issued this text w :
  issued w (_embedQueryContent this text w).2 = [chunk_request this [text]].
Proof. rewrite embedQueryContent_world. apply issued_app. Qed.

Lemma allSettled_embedContent (reqs : list EmbedContentParameters) (w : World) :
  allSettled (map embedContent reqs) w
  = (imap (fun k r => vendor w (length (sent w) + k) r) reqs,
     {| vendor := vendor w; sent := sent w ++ reqs |}).
Proof.
  revert w; induction reqs as [|r reqs IH]; intros w; simpl.
  - rewrite app_nil_r. now destruct w.
  - rewrite IH; simpl. rewrite Nat.add_0_r, <- app_assoc; simpl.
    do 2 f_equal. apply imap_ext; intros k x _; simpl.
    rewrite length_app; simpl. f_equal. lia.
Qed.

Lemma embedDocumentsContent_allSettled this documents w :
  allSettled
    (map (fun chunk =>
            embedContent
              {| r_model := model this;
                 r_contents := map (fun doc => _cleanText this doc) chunk;
                 r_config := _embedConfig this |})
         (chunkArray documents (maxBatchSize this))) w
  = (outcomes this documents w,
     {| vendor := vendor w;
        sent := sent w
                ++ map (chunk_request this)
                       (chunkArray documents (maxBatchSize this)) |}).
Proof.
  pose proof
    (allSettled_embedContent
       (map (chunk_request this) (chunkArray documents (maxBatchSize this)))
       w) as H.
  rewrite map_map, imap_fmap in H. exact H.
Qed.

Lemma embedDocumentsContent_world this documents w :
  (_embedDocumentsContent this documents w).2
  = {| vendor := vendor w;
       sent := sent w
               ++ map (chunk_request this)
                      (chunkArray documents (maxBatchSize this)) |}.
Proof.
  unfold _embedDocumentsContent.
  rewrite embedDocumentsContent_allSettled.
  now destruct (mapM id _).
Qed.

Lemma embedDocumentsContent_issued this documents w :
  issued w (_embedDocumentsContent this documents w).2
  = map (chunk_request this) (chunkArray documents (maxBatchSize this)).
Proof. rewrite embedDocumentsContent_world. apply issued_app. Qed.

Lemma issued_request this text documents w req :
  req ∈ issued w (_embedQueryContent this text w).2
        ++ issued w (_embedDocumentsContent this documents w).2 ->
  r_model req = model this /\ r_config req = _embedConfig this.
Proof.
  rewrite embedQueryContent_issued, embedDocumentsContent_issued.
  rewrite elem_of_app, list_elem_of_singleton, list_elem_of_fmap.
  intros [-> | (chunk & -> & _)]; now split.
Qed.

(** ** The constructor *)

Lemma constructor_inr env fields this :
  constructor env fields = inr this ->
  model this
  = default "embedding-001"
      ((replace_models_prefix <$> (fields ≫= p_model)) ??
       (replace_models_prefix <$> (fields ≫= p_modelName)))
  /\ taskType this = fields ≫= p_taskType
  /\ title this = fields ≫= p_title
  /\ outputDimensionality this = fields ≫= p_outputDimensionality
  /\ stripNewLines this = true
  /\ maxBatchSize this = 100.
Proof.
  unfold constructor.
  destruct (_ && _); [discriminate|].
  destruct (_ ?? env _) as [k|]; [|discriminate].
  destruct (truthy k); [|discriminate].
  intros [= <-]; simpl.
  repeat split; now destruct (fields ≫= _).
Qed.

(** ** The config block *)

Lemma embedConfig_Some this c :
  _embedConfig this = Some c ->
  0 < keys_length c
  /\ c_taskType c = (if truthy_opt (taskType this) then taskType this else None)
  /\ c_title c = (if truthy_opt (title this) then title this else None)
  /\ c_outputDimensionality c = outputDimensionality this.
Proof.
  unfold _embedConfig.
  case_bool_decide as Hk; [|discriminate].
  intros [= <-]. split; [exact Hk|].
  destruct (truthy_opt (taskType this)), (truthy_opt (title this)),
    (outputDimensionality this); simpl; auto.
Qed.

Lemma embedConfig_outputDimensionality_Some this d :
  outputDimensionality this = Some d ->
  exists c, _embedConfig this = Some c /\ c_outputDimensionality c = Some d.
Proof.
  intros Hd. unfold _embedConfig. rewrite Hd.
  destruct (taskType this) as [[|? ?]|], (title this) as [[|? ?]|];
    eexists; (split; reflexivity).
Qed.

Lemma embedConfig_taskType_Some this t :
  taskType this = Some t -> t <> "" ->
  exists c, _embedConfig this = Some c /\ c_taskType c = Some t.
Proof.
  intros Ht Hne. unfold _embedConfig. rewrite Ht.
  destruct t as [|a t]; [congruence|]; simpl.
  destruct (title this) as [[|? ?]|], (outputDimensionality this);
    eexists; (split; reflexivity).
Qed.

Lemma embedConfig_None this :
  taskType this = None -> title this = None ->
  outputDimensionality this = None ->
  _embedConfig this = None.
Proof. intros Ht Hl Hd. unfold _embedConfig. now rewrite Ht, Hl, Hd. Qed.

(** C7.  Every embedding call reaches the vendor with the config the
    instance was built for: the query path sends exactly one request and
    the batch path, for a non-empty input, at least one, and in every
    request either path sends, an [outputDimensionality] supplied at
    construction is in the config with exactly that number; a field that
    was not supplied is absent from the config; a config is never sent
    without a populated field, and with the three fields unset no config
    is sent. *)
Theorem embedConfig_holds_what_was_set env fields this text documents w :
  constructor env fields = inr this ->
  (exists req, issued w (_embedQueryContent this text w).2 = [req])
  /\ (documents <> [] ->
      exists req rest,
        issued w (_embedDocumentsContent this documents w).2 = req :: rest)
  /\ forall req,
       req ∈ issued w (_embedQueryContent this text w).2
             ++ issued w (_embedDocumentsContent this documents w).2 ->
       (forall d, fields ≫= p_outputDimensionality = Some d ->
          exists c, r_config req = Some c /\ c_outputDimensionality c = Some d)
       /\ (forall c, r_config req = Some c ->
             0 < keys_length c
             /\ (fields ≫= p_outputDimensionality = None ->
                 c_outputDimensionality c = None)
             /\ (fields ≫= p_taskType = None -> c_taskType c = None)
             /\ (fields ≫= p_title = None -> c_title c = None))
       /\ (fields ≫= p_outputDimensionality = None ->
           fields ≫= p_taskType = None ->
           fields ≫= p_title = None ->
           r_config req = None).
Proof.
  intros Hnew.
  apply constructor_inr in Hnew as (_ & Ht & Hl & Hd & _ & Hbatch).
  split; [|split].
  - rewrite embedQueryContent_issued. eauto.
  - intros Hne. rewrite embedDocumentsContent_issued, Hbatch.
    destruct documents as [|doc documents]; [congruence|].
    unfold chunkArray. cbn [length chunks_upto map]. eauto.
  - intros req Hreq. apply issued_request in Hreq as [_ ->].
    split; [|split].
    + intros d Hf. apply embedConfig_outputDimensionality_Some. congruence.
    + intros c Hc. apply embedConfig_Some in Hc as (Hk & Hct & Hcl & Hcd).
      split; [exact Hk|]. split; [|split]; intros Hf.
      * congruence.
      * rewrite Hct, Ht, Hf. reflexivity.
      * rewrite Hcl, Hl, Hf. reflexivity.
    + intros Hfd Hft Hfl. apply embedConfig_None; congruence.
Qed.

Lemma embedConfig_holds_what_was_set_witness :
  (exists req c,
     issued (fresh echo_vendor)
       (_embedQueryContent embeddings_128 "hello world" (fresh echo_vendor)).2
     = [req]
     /\ r_config req = Some c
     /\ c_outputDimensionality c = Some 128%float)
  /\ (exists req rest c,
        issued (fresh echo_vendor)
          (_embedDocumentsContent embeddings_128 ["doc1"; "doc2"]
             (fresh echo_vendor)).2
        = req :: rest
        /\ r_config req = Some c
        /\ c_outputDimensionality c = Some 128%float).
Proof.
  destruct (embedConfig_holds_what_was_set empty_env (Some fields_128)
              embeddings_128 "hello world" ["doc1"; "doc2"]
              (fresh echo_vendor) eq_refl)
    as ((req & Hquery) & Hbatch & Hconfig).
  destruct Hbatch as (req' & rest & Hbatch); [discriminate|].
  split.
  - destruct (Hconfig req) as (Hdim & _).
    { rewrite Hquery. apply elem_of_app. left. apply list_elem_of_here. }
    destruct (Hdim 128%float eq_refl) as (c & Hc & Hd).
    exists req, c. now split.
  - destruct (Hconfig req') as (Hdim & _).
    { rewrite Hbatch. apply elem_of_app. right. apply list_elem_of_here. }
    destruct (Hdim 128%float eq_refl) as (c & Hc & Hd).
    exists req', rest, c. now split.
Defined.

(** The first test of the repository: with [outputDimensionality: 128] the
    query path sends a config holding 128. *)
Example embedQuery_forwards_128 :
  constructor empty_env (Some fields_128) = inr embeddings_128
  /\ issued (fresh echo_vendor)
        (_embedQueryContent embeddings_128 "hello world" (fresh echo_vendor)).2
     = [{| r_model := "embedding-001";
           r_contents := ["hello world"];
           r_config := Some (mkConfig None None (Some 128%float)) |}].
Proof. split; reflexivity. Qed.

(** C8.  With [stripNewLines] on, the query path sends one request whose
    only content is the text with every line feed replaced by a space and
    nothing else changed; when the call is fulfilled it returns the values
    of the first embedding of the response, and the empty vector when the
    response has no embeddings (or the first one has no values). *)
Theorem embedQuery_cleans_and_takes_first this text w :
  stripNewLines this = true ->
  exists cleaned req,
    issued w (_embedQueryContent this text w).2 = [req]
    /\ r_contents req = [cleaned]
    /\ String.length cleaned = String.length text
    /\ (forall i,
          String.get i cleaned
          = (fun c => if Ascii.eqb c LF then SP else c) <$> String.get i text)
    /\ (forall i, String.get i cleaned <> Some LF)
    /\ forall res,
         vendor w (length (sent w)) req = fulfilled res ->
         (_embedQueryContent this text w).1
         = fulfilled
             match embeddings res with
             | Some (e :: _) => default [] (values e)
             | _ => []
             end.
Proof.
  intros Hstrip.
  exists (replace_newlines text), (chunk_request this [text]).
  split; [apply embedQueryContent_issued|].
  split; [unfold chunk_request, _cleanText; simpl; now rewrite Hstrip|].
  split; [apply replace_newlines_length|].
  split; [apply replace_newlines_get|].
  split; [apply replace_newlines_no_LF|].
  intros res Hres.
  unfold _embedQueryContent, embedContent; simpl.
  change {| r_model := model this;
            r_contents := [_cleanText this text];
            r_config := _embedConfig this |}
    with (chunk_request this [text]).
  rewrite Hres; simpl. f_equal. unfold first_values.
  destruct (embeddings res) as [[|e es]|]; reflexivity.
Qed.

Lemma embedQuery_cleans_and_takes_first_witness :
  exists cleaned req,
    issued (fresh echo_vendor)
      (_embedQueryContent embeddings_128 a_newline_b (fresh echo_vendor)).2
    = [req]
    /\ r_contents req = [cleaned]
    /\ String.length cleaned = String.length a_newline_b
    /\ (forall i,
          String.get i cleaned
          = (fun c => if Ascii.eqb c LF then SP else c)
              <$> String.get i a_newline_b)
    /\ (forall i, String.get i cleaned <> Some LF)
    /\ forall res,
         vendor (fresh echo_vendor) (length (sent (fresh echo_vendor))) req
         = fulfilled res ->
         (_embedQueryContent embeddings_128 a_newline_b (fresh echo_vendor)).1
         = fulfilled
             match embeddings res with
             | Some (e :: _) => default [] (values e)
             | _ => []
             end.
Proof.
  apply (embedQuery_cleans_and_takes_first embeddings_128 a_newline_b
           (fresh echo_vendor)).
  reflexivity.
Defined.

(** The example of the specification: ["a\nb"] is sent as ["a b"], and the
    first vector of the answer comes back. *)
Example embedQuery_a_newline_b :
  _embedQueryContent embeddings_128 a_newline_b (fresh echo_vendor)
  = (fulfilled [0.5%float; 0.25%float],
     {| vendor := echo_vendor;
        sent := [{| r_model := "embedding-001";
                    r_contents := ["a b"];
                    r_config := Some (mkConfig None None (Some 128%float)) |}]
     |}).
Proof. reflexivity. Qed.

(** A response without embeddings gives the empty vector. *)
Example embedQuery_no_embeddings :
  (_embedQueryContent embeddings_128 "hello" (fresh silent_vendor)).1
  = fulfilled [].
Proof. reflexivity. Qed.

(** C9, as the specification states it, fails: a model name configured as
    ["models/embedding-001"] reaches the vendor as ["embedding-001"]. *)
Lemma model_name_not_sent_as_configured :
  exists this req,
    constructor empty_env (Some fields_prefixed) = inr this
    /\ req ∈ issued (fresh echo_vendor)
               (_embedQueryContent this "hello" (fresh echo_vendor)).2
    /\ configured_model (Some fields_prefixed) = Some "models/embedding-001"
    /\ r_model req <> "models/embedding-001".
Proof.
  exists embeddings_prefixed, (chunk_request embeddings_prefixed ["hello"]).
  split; [reflexivity|]. split; [vm_compute; apply list_elem_of_here|].
  split; [reflexivity|]. discriminate.
Qed.

(** C9, amended.  Every request sent to the vendor, by the query path or by
    the batch path, names the configured model with one leading
    ["models/"] removed (so the configured string itself when it does not
    start with ["models/"], and ["embedding-001"] when none was
    configured); a non-empty task type and an output dimensionality
    supplied at construction are in its config unmodified. *)
Theorem configuration_reaches_vendor env fields this text documents w req :
  constructor env fields = inr this ->
  req ∈ issued w (_embedQueryContent this text w).2
        ++ issued w (_embedDocumentsContent this documents w).2 ->
  (forall m, configured_model fields = Some m ->
     (forall r, m = "models/" +:+ r -> r_model req = r)
     /\ ((forall r, m <> "models/" +:+ r) -> r_model req = m))
  /\ (configured_model fields = None -> r_model req = "embedding-001")
  /\ (forall t, fields ≫= p_taskType = Some t -> t <> "" ->
        exists c, r_config req = Some c /\ c_taskType c = Some t)
  /\ (forall d, fields ≫= p_outputDimensionality = Some d ->
        exists c, r_config req = Some c /\ c_outputDimensionality c = Some d).
Proof.
  intros Hnew Hreq.
  apply constructor_inr in Hnew as (Hm & Ht & _ & Hd & _).
  apply issued_request in Hreq as [-> ->].
  assert (Hmodel : model this
                   = default "embedding-001"
                       (replace_models_prefix <$> configured_model fields)).
  { rewrite Hm. unfold configured_model.
    now destruct (fields ≫= p_model), (fields ≫= p_modelName). }
  split; [|split; [|split]].
  - intros m Hc. rewrite Hmodel, Hc; simpl. split.
    + intros r ->. apply replace_models_prefix_strips.
    + apply replace_models_prefix_keeps.
  - intros Hc. now rewrite Hmodel, Hc.
  - intros t Hf Hne. apply embedConfig_taskType_Some; congruence.
  - intros d Hf. apply embedConfig_outputDimensionality_Some. congruence.
Qed.

Lemma configuration_reaches_vendor_witness :
  exists req,
    req ∈ issued (fresh echo_vendor)
            (_embedDocumentsContent embeddings_prefixed ["doc1"; "doc2"]
               (fresh echo_vendor)).2
    /\ r_model req = "embedding-001"
    /\ (exists c, r_config req = Some c
                  /\ c_taskType c = Some "RETRIEVAL_QUERY")
    /\ (exists c, r_config req = Some c
                  /\ c_outputDimensionality c = Some 128%float).
Proof.
  exists (chunk_request embeddings_prefixed ["doc1"; "doc2"]).
  assert (Hin : chunk_request embeddings_prefixed ["doc1"; "doc2"]
                ∈ issued (fresh echo_vendor)
                    (_embedQueryContent embeddings_prefixed "q"
                       (fresh echo_vendor)).2
                  ++ issued (fresh echo_vendor)
                       (_embedDocumentsContent embeddings_prefixed
                          ["doc1"; "doc2"] (fresh echo_vendor)).2).
  { vm_compute. apply list_elem_of_further, list_elem_of_here. }
  destruct (configuration_reaches_vendor empty_env (Some fields_prefixed)
              embeddings_prefixed "q" ["doc1"; "doc2"] (fresh echo_vendor)
              _ eq_refl Hin) as (Hm & _ & Ht & Hd).
  split; [vm_compute; apply list_elem_of_here|].
  split; [apply (Hm "models/embedding-001" eq_refl); reflexivity|].
  split; [apply Ht; [reflexivity|discriminate]|].
  apply Hd; reflexivity.
Defined.

(** C6, as the specification states it, fails: a title set to the empty
    string, with no task type, is accepted. *)
Lemma empty_title_is_accepted :
  p_title fields_empty_title = Some ""
  /\ p_taskType fields_empty_title = None
  /\ exists this, constructor empty_env (Some fields_empty_title) = inr this.
Proof. split; [reflexivity|]. split; [reflexivity|]. eexists. reflexivity. Qed.

(** C6, amended.  Construction throws, and so yields no instance to send a
    request with, when a non-empty title comes with no task type or with
    one other than ["RETRIEVAL_DOCUMENT"], and when neither the [apiKey]
    field nor the [GOOGLE_API_KEY] variable provides a non-empty
    credential. *)
Theorem constructor_validation env fields :
  title_without_retrieval_document fields \/ no_credential env fields ->
  exists msg,
    constructor env fields = inl msg
    /\ (msg = title_error \/ msg = apiKey_error).
Proof.
  intros H. unfold constructor.
  replace ((fields ≫= p_title) ?? None) with (fields ≫= p_title)
    by now destruct (fields ≫= p_title).
  replace ((fields ≫= p_taskType) ?? None) with (fields ≫= p_taskType)
    by now destruct (fields ≫= p_taskType).
  destruct (truthy_opt (fields ≫= p_title)
            && negb (bool_decide
                       (fields ≫= p_taskType = Some "RETRIEVAL_DOCUMENT")))
    eqn:Hguard; [eauto|].
  destruct H as [[(t & Ht & Hne) Htask] | Hcred].
  - rewrite Ht, bool_decide_eq_false_2 in Hguard by exact Htask.
    destruct t; [congruence|discriminate].
  - destruct (fields ≫= p_apiKey) as [k|] eqn:Hk; simpl.
    + rewrite (Hcred k) by now left. simpl. eauto.
    + destruct (env "GOOGLE_API_KEY") as [k|] eqn:He; [|eauto].
      rewrite (Hcred k) by now right. simpl. eauto.
Qed.

Lemma constructor_validation_witness :
  exists msg,
    constructor empty_env (Some fields_title_only) = inl msg
    /\ (msg = title_error \/ msg = apiKey_error).
Proof.
  apply (constructor_validation empty_env (Some fields_title_only)).
  left. split; [exists "Report"; split; [reflexivity|discriminate]|].
  discriminate.
Defined.

(** Without any credential construction fails with the API key message. *)
Example constructor_without_credential :
  constructor empty_env None = inl apiKey_error.
Proof. reflexivity. Qed.

(** An empty [apiKey] field is not replaced by the environment's key. *)
Example constructor_empty_apiKey_field :
  constructor (fun _ => Some "from-env")
    (Some (mkParams None None None None None None (Some "") None))
  = inl apiKey_error.
Proof. reflexivity. Qed.

(** ** Chunks *)

Section Chunks.

Context {A : Type} (n : nat) (Hn : 0 < n).

Lemma chunks_upto_concat (fuel : nat) (l : list A) :
  length l <= fuel -> concat (chunks_upto fuel l n) = l.
Proof using Hn.
  revert l; induction fuel as [|fuel IH]; intros l Hlen.
  - destruct l; [reflexivity|simpl in Hlen; lia].
  - destruct l as [|a l]; [reflexivity|].
    cbn [chunks_upto concat]. rewrite IH.
    + apply take_drop.
    + rewrite length_drop. simpl in *. lia.
Qed.

Lemma chunkArray_concat (l : list A) : concat (chunkArray l n) = l.
Proof using Hn. apply chunks_upto_concat. reflexivity. Qed.

(** Blocks that are as long as the chunks of [l], one for one, line up with
    [l]: item [i] of their concatenation is item [i mod n] of block
    [i / n]. *)
Lemma chunks_upto_blocks {B : Type} (fuel : nat) :
  forall (l : list A) (blocks : list (list B)),
    length l <= fuel ->
    Forall2 (fun b c => length b = length c) blocks (chunks_upto fuel l n) ->
    length (concat blocks) = length l
    /\ forall i, i < length l ->
         concat blocks !! i = blocks !! (i / n) ≫= (.!! (i mod n)).
Proof using Hn.
  induction fuel as [|fuel IH]; intros l blocks Hlen Hblocks.
  - destruct l; [|simpl in Hlen; lia].
    inversion Hblocks; subst. split; [reflexivity|]. simpl; lia.
  - destruct l as [|a l].
    { inversion Hblocks; subst. split; [reflexivity|]. simpl; lia. }
    cbn [chunks_upto] in Hblocks.
    inversion Hblocks as [|b c blocks' cs Hb Hrest]; subst.
    rewrite length_take in Hb.
    destruct (IH (drop n (a :: l)) blocks') as [IHlen IHget].
    { rewrite length_drop. simpl in *. lia. }
    { exact Hrest. }
    rewrite length_drop in IHlen, IHget.
    cbn [concat]. rewrite length_app. split; [lia|].
    intros i Hi.
    destruct (decide (i < n)) as [Hlt|Hge].
    + rewrite Nat.div_small, Nat.mod_small by lia. simpl.
      apply lookup_app_l. lia.
    + assert (Hdiv : i / n = S ((i - n) / n)).
      { replace i with ((i - n) + 1 * n) at 1 by lia.
        rewrite Nat.div_add by lia. lia. }
      assert (Hmod : i mod n = (i - n) mod n).
      { replace i with ((i - n) + 1 * n) at 1 by lia.
        apply Nat.Div0.mod_add. }
      rewrite lookup_app_r by lia.
      replace (i - length b) with (i - n) by lia.
      rewrite IHget by lia.
      now rewrite Hdiv, Hmod.
Qed.

Lemma chunkArray_blocks {B : Type} (l : list A) (blocks : list (list B)) :
  Forall2 (fun b c => length b = length c) blocks (chunkArray l n) ->
  length (concat blocks) = length l
  /\ forall i, i < length l ->
       concat blocks !! i = blocks !! (i / n) ≫= (.!! (i mod n)).
Proof using Hn. apply chunks_upto_blocks. reflexivity. Qed.

(** Item [i] of the input is item [i mod n] of chunk [i / n]. *)
Lemma chunkArray_lookup (l : list A) (i : nat) :
  i < length l ->
  chunkArray l n !! (i / n) ≫= (.!! (i mod n)) = l !! i.
Proof using Hn.
  intros Hi.
  destruct (chunkArray_blocks l (chunkArray l n)) as [_ Hget].
  { apply Forall2_same_length_lookup_2; [reflexivity|]. congruence. }
  rewrite <- Hget by exact Hi. now rewrite chunkArray_concat.
Qed.

End Chunks.

(** ** The batch path *)

Lemma outcomes_length this documents w :
  length (outcomes this documents w)
  = length (chunkArray documents (maxBatchSize this)).
Proof. apply length_imap. Qed.

(** The callback never meets an index without a chunk, so [flatMap] has a
    block for every outcome. *)
Lemma flatMap_blocks this documents w :
  let chunks := chunkArray documents (maxBatchSize this) in
  mapM id (imap (flatMap_callback chunks) (outcomes this documents w))
  = Some (imap (fun idx res => default [] (flatMap_callback chunks idx res))
               (outcomes this documents w)).
Proof.
  cbv zeta. apply mapM_Some_2.
  apply Forall2_same_length_lookup_2; [now rewrite !length_imap|].
  intros i x y Hx Hy.
  apply list_lookup_imap_Some in Hx as (o & Ho & ->).
  apply list_lookup_imap_Some in Hy as (o' & Ho' & ->).
  assert (o' = o) as -> by congruence.
  destruct o as [res|reason]; [reflexivity|].
  apply lookup_lt_Some in Ho. rewrite outcomes_length in Ho.
  apply lookup_lt_is_Some_2 in Ho as [chunk Hchunk].
  unfold flatMap_callback, id. now rewrite Hchunk.
Qed.

(** The block of a chunk: what the callback returns for it. *)
Lemma flatMap_block this documents w k chunk o :
  one_embedding_per_item this documents w ->
  chunkArray documents (maxBatchSize this) !! k = Some chunk ->
  outcomes this documents w !! k = Some o ->
  let block :=
    default []
      (flatMap_callback (chunkArray documents (maxBatchSize this)) k o) in
  length block = length chunk
  /\ forall j, j < length chunk -> block !! j = Some (slot (Some o) j).
Proof.
  intros Hone Hchunk Ho; simpl.
  destruct o as [res|reason]; simpl.
  - destruct (Hone k chunk res Hchunk Ho) as (es & Hes & Hlen).
    rewrite Hes; simpl. rewrite length_map. split; [exact Hlen|].
    intros j Hj. rewrite list_lookup_fmap.
    destruct (lookup_lt_is_Some_2 es j) as [e He]; [lia|].
    now rewrite He.
  - rewrite Hchunk; simpl. rewrite length_replicate. split; [reflexivity|].
    intros j Hj. now apply lookup_replicate_2.
Qed.

(** C1, as the specification states it, fails: a fulfilled call whose
    response carries no embeddings contributes nothing, and the result is
    shorter than the input. *)
Lemma fulfilled_without_embeddings_shortens :
  exists result,
    (_embedDocumentsContent embeddings_128 ["a"] (fresh silent_vendor)).1
    = fulfilled result
    /\ outcomes embeddings_128 ["a"] (fresh silent_vendor)
       = [fulfilled {| embeddings := None |}]
    /\ length result <> length ["a"].
Proof. exists []. split; [reflexivity|]. split; [reflexivity|]. discriminate. Qed.

(** C1, amended.  When every fulfilled call answers with one embedding per
    item of its chunk, the batch path returns, for every input list and
    whatever calls are rejected, a list as long as the input in which
    position [i] holds the vector offered for document [i]: that document
    is item [i mod n] of chunk [i / n], and the vector is the one at
    [i mod n] in that chunk's response, or the empty vector when that
    chunk's call was rejected. *)
Theorem embedDocuments_alignment this documents w :
  0 < maxBatchSize this ->
  one_embedding_per_item this documents w ->
  exists result,
    (_embedDocumentsContent this documents w).1 = fulfilled result
    /\ length result = length documents
    /\ forall i, i < length documents ->
         let k := i / maxBatchSize this in
         let j := i mod maxBatchSize this in
         chunkArray documents (maxBatchSize this) !! k ≫= (.!! j)
         = documents !! i
         /\ result !! i = Some (slot (outcomes this documents w !! k) j)
         /\ (forall reason,
               outcomes this documents w !! k = Some (rejected reason) ->
               result !! i = Some []).
Proof.
  intros Hn Hone.
  set (chunks := chunkArray documents (maxBatchSize this)).
  set (blocks :=
         imap (fun idx res => default [] (flatMap_callback chunks idx res))
              (outcomes this documents w)).
  assert (Hblocks : Forall2 (fun b c => length b = length c) blocks chunks).
  { apply Forall2_same_length_lookup_2.
    - unfold blocks. now rewrite length_imap, outcomes_length.
    - intros k b c Hb Hc.
      apply list_lookup_imap_Some in Hb as (o & Ho & ->).
      now apply (flatMap_block this documents w k c o Hone Hc Ho). }
  destruct (chunkArray_blocks (maxBatchSize this) Hn documents blocks Hblocks)
    as [Hlen Hget].
  exists (concat blocks). split; [|split; [exact Hlen|]].
  - unfold _embedDocumentsContent.
    rewrite embedDocumentsContent_allSettled.
    pose proof (flatMap_blocks this documents w) as Hmap; simpl in Hmap.
    fold chunks in Hmap |- *. fold blocks in Hmap. now rewrite Hmap.
  - intros i Hi k j.
    pose proof (chunkArray_lookup (maxBatchSize this) Hn documents i Hi)
      as Hdoc.
    fold chunks k j in Hdoc.
    assert (Hslot : concat blocks !! i
                    = Some (slot (outcomes this documents w !! k) j)).
    { rewrite Hget by exact Hi. fold k j.
      destruct (lookup_lt_is_Some_2 documents i Hi) as [d Hd].
      rewrite Hd in Hdoc.
      destruct (chunks !! k) as [c|] eqn:Hc; [|discriminate].
      simpl in Hdoc. apply lookup_lt_Some in Hdoc as Hj.
      destruct (lookup_lt_is_Some_2 (outcomes this documents w) k)
        as [o Ho].
      { rewrite outcomes_length. fold chunks. now apply lookup_lt_Some in Hc. }
      unfold blocks at 1. rewrite list_lookup_imap, Ho; simpl.
      now apply (flatMap_block this documents w k c o Hone Hc Ho). }
    split; [exact Hdoc|]. split; [exact Hslot|].
    intros reason Hrej. now rewrite Hslot, Hrej.
Qed.

Lemma embedDocuments_alignment_witness :
  exists result,
    (_embedDocumentsContent small_batches ["a"; "b"; "c"; "d"; "e"]
       (fresh flaky_vendor)).1
    = fulfilled result
    /\ length result = 5
    /\ result !! 2 = Some []
    /\ result !! 4 = Some [0.5%float; 0.25%float].
Proof.
  destruct (embedDocuments_alignment small_batches ["a"; "b"; "c"; "d"; "e"]
              (fresh flaky_vendor)) as (result & Hres & Hlen & Hget).
  - simpl. lia.
  - intros [|[|[|k]]] chunk res; [| |  |discriminate].
    + intros [= <-] [= <-]. now eexists.
    + discriminate.
    + intros [= <-] [= <-]. now eexists.
  - exists result. split; [exact Hres|]. split; [exact Hlen|]. split.
    + apply (Hget 2); simpl; lia.
    + apply (Hget 4); simpl; lia.
Defined.

(** Five documents in batches of two, the second call rejected: the third
    and fourth positions hold empty vectors and the fifth keeps its
    place. *)
Example embedDocuments_rejected_chunk :
  (_embedDocumentsContent small_batches ["a"; "b"; "c"; "d"; "e"]
     (fresh flaky_vendor)).1
  = fulfilled [[0.5%float; 0.25%float]; [0.5%float; 0.25%float]; []; [];
               [0.5%float; 0.25%float]].
Proof. reflexivity. Qed.

(** The second test of the repository: two documents go out in one call,
    whose config holds the output dimensionality. *)
Example embedDocuments_one_call :
  issued (fresh echo_vendor)
    (_embedDocumentsContent embeddings_128 ["doc1"; "doc2"]
       (fresh echo_vendor)).2
  = [{| r_model := "embedding-001";
        r_contents := ["doc1"; "doc2"];
        r_config := Some (mkConfig None None (Some 128%float)) |}].
Proof. reflexivity. Qed.

End EmbeddingsProperties.

(** * Properties of the tool normaliser *)

Section ToolsProperties.

Import Tools.

(** ** The [forEach] loop *)

Lemma native_tools_app tools1 tools2 :
  native_tools (tools1 ++ tools2) = native_tools tools1 ++ native_tools tools2.
Proof. apply omap_app. Qed.

(** The loop never throws: it appends the converted declarations to the
    one array and the native tools to the other. *)
Lemma forEach_tool_inr tools functionDeclarationTools genAITools :
  forEach_tool tools functionDeclarationTools genAITools
  = inr (functionDeclarationTools ++ concat (map converted_declarations tools),
         genAITools ++ native_tools tools).
Proof.
  revert functionDeclarationTools genAITools.
  induction tools as [|[t|t|t] tools IH]; intros decls natives.
  - simpl. now rewrite !app_nil_r.
  - simpl. rewrite IH. now rewrite <- app_assoc.
  - simpl. rewrite IH. now rewrite <- app_assoc.
  - simpl. rewrite IH. now rewrite <- app_assoc.
Qed.

(** ** The merge *)

Lemma find_first_group pre g post :
  Forall (fun t => has_functionDeclarations t = false) pre ->
  has_functionDeclarations g = true ->
  List.find has_functionDeclarations (pre ++ g :: post) = Some g.
Proof.
  intros Hpre Hg. induction Hpre as [|t pre Ht _ IH]; simpl.
  - now rewrite Hg.
  - now rewrite Ht.
Qed.

Lemma find_no_group natives :
  Forall (fun t => has_functionDeclarations t = false) natives ->
  List.find has_functionDeclarations natives = None.
Proof.
  intros H. induction H as [|t natives Ht _ IH]; simpl; [reflexivity|].
  now rewrite Ht.
Qed.

Lemma merge_map_nil natives : merge_map natives [] = natives.
Proof. induction natives as [|t natives IH]; simpl; congruence. Qed.

Lemma merge_map_first_group pre g post decls :
  Forall (fun t => has_functionDeclarations t = false) pre ->
  has_functionDeclarations g = true ->
  decls <> [] ->
  merge_map (pre ++ g :: post) decls
  = pre ++ group (default [] (get_functionDeclarations g) ++ decls) :: post.
Proof.
  intros Hpre Hg Hne.
  assert (Hpos : bool_decide (0 < length decls) = true).
  { apply bool_decide_eq_true_2. destruct decls; [congruence|simpl; lia]. }
  induction Hpre as [|t pre Ht _ IH]; simpl.
  - rewrite Hpos, Hg; simpl. now rewrite merge_map_nil.
  - rewrite Ht, andb_false_r. now rewrite IH.
Qed.

(** ** Lists of framework-native tools *)

Lemma all_langchain tools :
  Forall (fun t => isLangChainTool t = true) tools ->
  exists ts, tools = map LangChainTool ts.
Proof.
  induction 1 as [|[t|t|t] tools Ht _ (ts & ->)]; try discriminate.
  - now exists [].
  - now exists (t :: ts).
Qed.

Lemma langchain_native_tools ts : native_tools (map LangChainTool ts) = [].
Proof. induction ts as [|t ts IH]; [reflexivity|exact IH]. Qed.

Lemma langchain_converted ts :
  concat (map converted_declarations (map LangChainTool ts))
  = map convertStructuredTool ts.
Proof.
  induction ts as [|t ts IH]; [reflexivity|].
  cbn [map concat]. now rewrite IH.
Qed.

(** A converted element contributes a declaration. *)
Lemma converted_nonempty tools :
  Exists (fun t => is_converted t = true) tools ->
  concat (map converted_declarations tools) <> [].
Proof.
  induction 1 as [[t|t|t] tools Ht | t tools _ IH]; simpl; try discriminate.
  intros H. apply app_eq_nil in H as [_ H]. now apply IH.
Qed.

(** C2, as the specification states it, fails: the empty list has no
    element that is not framework-native, and gives no group at all. *)
Lemma no_tools_no_group :
  Forall (fun t => isLangChainTool t = true) []
  /\ processTools [] = inr [].
Proof. split; [constructor|reflexivity]. Qed.

(** C2, amended.  For every non-empty list of framework-native tools,
    [processTools] returns exactly one entry, a function-declarations
    group, whose declarations are the concatenation of what each tool
    converts to, in input order: the declaration at position [i] is the
    conversion of the tool at position [i]. *)
Theorem langchain_tools_one_group tools :
  tools <> [] ->
  Forall (fun t => isLangChainTool t = true) tools ->
  exists decls,
    processTools tools = inr [group decls]
    /\ decls = concat (map converted_declarations tools)
    /\ forall i t,
         tools !! i = Some (LangChainTool t) ->
         decls !! i = Some (convertStructuredTool t).
Proof.
  intros Hne Hall. apply all_langchain in Hall as (ts & ->).
  exists (map convertStructuredTool ts).
  rewrite langchain_converted. split; [|split; [reflexivity|]].
  - unfold processTools. rewrite forEach_tool_inr. simpl.
    rewrite langchain_native_tools, langchain_converted. simpl.
    destruct ts; [now destruct Hne|reflexivity].
  - intros i t Hi.
    rewrite list_lookup_fmap in Hi. rewrite list_lookup_fmap.
    destruct (ts !! i); [|discriminate]. now injection Hi as ->.
Qed.

Lemma langchain_tools_one_group_witness :
  exists decls,
    processTools [weather_tool] = inr [group decls]
    /\ decls = concat (map converted_declarations [weather_tool])
    /\ forall i t,
         [weather_tool] !! i = Some (LangChainTool t) ->
         decls !! i = Some (convertStructuredTool t).
Proof.
  apply (langchain_tools_one_group [weather_tool]).
  - discriminate.
  - repeat constructor.
Defined.

Example processTools_weather :
  processTools [weather_tool] = inr [group [weather_declaration]].
Proof. reflexivity. Qed.

(** C3.  When the native tools of the input start, after tools without the
    key, with a tool [g] that carries a function-declarations group, and
    the input has framework-native or OpenAI-style tools too, the result is
    the native tools with [g] replaced by a group holding [g]'s
    declarations followed by all the converted ones: no entry is appended
    (the result is as long as the native tools), and the tools before and
    after [g], later groups included, are unchanged. *)
Theorem converted_merge_into_first_group tools pre g post :
  native_tools tools = pre ++ g :: post ->
  Forall (fun t => has_functionDeclarations t = false) pre ->
  has_functionDeclarations g = true ->
  Exists (fun t => is_converted t = true) tools ->
  processTools tools
  = inr (pre
         ++ group (default [] (get_functionDeclarations g)
                   ++ concat (map converted_declarations tools))
         :: post)
  /\ length (pre
             ++ group (default [] (get_functionDeclarations g)
                       ++ concat (map converted_declarations tools))
             :: post)
     = length (native_tools tools).
Proof.
  intros Hnat Hpre Hg Hconv. split.
  - unfold processTools. rewrite forEach_tool_inr. simpl. rewrite Hnat.
    rewrite find_first_group by assumption.
    rewrite merge_map_first_group; auto using converted_nonempty.
  - rewrite Hnat, !length_app. reflexivity.
Qed.

Lemma converted_merge_into_first_group_witness :
  processTools
    [weather_tool; NativeTool code_execution;
     NativeTool (group [search_declaration]); time_tool;
     NativeTool (group [lookup_declaration])]
  = inr [code_execution;
         group [search_declaration; weather_declaration; time_declaration];
         group [lookup_declaration]].
Proof.
  apply (converted_merge_into_first_group
           [weather_tool; NativeTool code_execution;
            NativeTool (group [search_declaration]); time_tool;
            NativeTool (group [lookup_declaration])]
           [code_execution] (group [search_declaration])
           [group [lookup_declaration]]).
  - reflexivity.
  - repeat constructor.
  - reflexivity.
  - apply Exists_cons_hd. reflexivity.
Defined.

(** Without converted tools the native tools come back as they are. *)
Lemma processTools_only_native tools :
  Forall (fun t => is_converted t = false) tools ->
  processTools tools = inr (native_tools tools).
Proof.
  intros Hall.
  assert (Hnone : concat (map converted_declarations tools) = []).
  { induction Hall as [|[t|t|t] tools Ht _ IH];
      [reflexivity|discriminate|discriminate|exact IH]. }
  unfold processTools. rewrite forEach_tool_inr, Hnone. simpl.
  destruct (List.find _ _).
  - now rewrite merge_map_nil.
  - now rewrite app_nil_r.
Qed.

(** ** Tool processing never throws *)

Lemma processTools_total tools : exists genAITools, processTools tools = inr genAITools.
Proof.
  unfold processTools. rewrite forEach_tool_inr. simpl.
  destruct (List.find _ _); eauto.
Qed.

(** An element classified as an OpenAI-style tool goes through
    [convertOpenAIToolToGenAI] whatever its parameters are: here they are
    a string, and the declaration carries that string. *)
Example processTools_malformed_tool :
  processTools [malformed_tool]
  = inr [group [{| name := "";
                   description := None;
                   parameters := JString "not a schema" |}]].
Proof. reflexivity. Qed.

(** ** The tool config *)

(** C4, as the specification states it, fails: the empty string is a
    string other than ["any"], ["auto"] and ["none"], and it is not listed
    among the allowed function names. *)
Lemma empty_toolChoice_is_not_listed :
  exists names,
    createToolConfig [group [weather_declaration]]
      (Some {| toolChoice := Some (ChoiceString "");
               e_allowedFunctionNames := Some ["get_weather"] |})
    = Some {| functionCallingConfig :=
                {| mode := ANY; allowedFunctionNames := Some names |} |}
    /\ "" ∉ names.
Proof.
  exists ["get_weather"]. split; [reflexivity|].
  rewrite list_elem_of_singleton. discriminate.
Qed.

Lemma modeMap_any : modeMap !! "any" = Some ANY.
Proof. reflexivity. Qed.

Lemma modeMap_auto : modeMap !! "auto" = Some AUTO.
Proof. reflexivity. Qed.

Lemma modeMap_none : modeMap !! "none" = Some NONE.
Proof. reflexivity. Qed.

(** C4, amended.  For a non-empty normalised tool list and a string tool
    choice: ["any"], ["auto"] and ["none"] give a config with mode [ANY],
    [AUTO] and [NONE] (and the allowed names as supplied); any other
    non-empty string gives mode [ANY] with the supplied allowed names
    followed by that string; the empty string gives mode [ANY] with the
    supplied allowed names only. *)
Theorem toolChoice_string_mode genAITools choice allowed :
  genAITools <> [] ->
  let config :=
    createToolConfig genAITools
      (Some {| toolChoice := Some (ChoiceString choice);
               e_allowedFunctionNames := allowed |}) in
  (choice = "any" ->
   config = Some {| functionCallingConfig :=
                      {| mode := ANY; allowedFunctionNames := allowed |} |})
  /\ (choice = "auto" ->
      config = Some {| functionCallingConfig :=
                         {| mode := AUTO; allowedFunctionNames := allowed |} |})
  /\ (choice = "none" ->
      config = Some {| functionCallingConfig :=
                         {| mode := NONE; allowedFunctionNames := allowed |} |})
  /\ (choice ∉ ["any"; "auto"; "none"] -> choice <> "" ->
      config = Some {| functionCallingConfig :=
                         {| mode := ANY;
                            allowedFunctionNames :=
                              Some (default [] allowed ++ [choice]) |} |}
      /\ choice ∈ default [] allowed ++ [choice]
      /\ forall f, f ∈ default [] allowed -> f ∈ default [] allowed ++ [choice])
  /\ (choice = "" ->
      config = Some {| functionCallingConfig :=
                         {| mode := ANY;
                            allowedFunctionNames :=
                              Some (default [] allowed) |} |}).
Proof.
  intros Hne config. subst config. unfold createToolConfig.
  rewrite bool_decide_eq_false_2
    by (destruct genAITools; [congruence|discriminate]).
  cbn [toolChoice e_allowedFunctionNames].
  split; [now intros ->|]. split; [now intros ->|]. split; [now intros ->|].
  split.
  - intros Hother Hempty. unfold includes.
    rewrite bool_decide_eq_false_2 by exact Hother.
    rewrite andb_false_r. cbn [is_string orb].
    destruct choice as [|a choice]; [congruence|]. cbn [truthy].
    split; [reflexivity|]. split.
    + apply elem_of_app. right. apply list_elem_of_here.
    + intros f Hf. apply elem_of_app. now left.
  - intros ->. cbn. now rewrite app_nil_r.
Qed.

Lemma toolChoice_string_mode_witness :
  createToolConfig [group [weather_declaration]]
    (Some {| toolChoice := Some (ChoiceString "get_weather");
             e_allowedFunctionNames := Some ["get_time"] |})
  = Some {| functionCallingConfig :=
              {| mode := ANY;
                 allowedFunctionNames := Some ["get_time"; "get_weather"] |} |}
  /\ createToolConfig [group [weather_declaration]]
       (Some {| toolChoice := Some (ChoiceString "auto");
                e_allowedFunctionNames := None |})
     = Some {| functionCallingConfig :=
                 {| mode := AUTO; allowedFunctionNames := None |} |}.
Proof.
  split.
  - apply (toolChoice_string_mode [group [weather_declaration]]
             "get_weather" (Some ["get_time"])).
    + discriminate.
    + rewrite !elem_of_cons, elem_of_nil. intros [H|[H|[H|[]]]]; discriminate.
    + discriminate.
  - apply (toolChoice_string_mode [group [weather_declaration]] "auto" None).
    + discriminate.
    + reflexivity.
Defined.

(** C10.  Whatever the tool choice and the allowed names, the tool config
    of [convertToolsToGenAI] is [undefined] when the normalised tool list
    is empty and when no [extra] is supplied; a tool choice that comes with
    an empty tool list gives neither a config nor an error. *)
Theorem toolConfig_undefined tools extra :
  processTools tools = inr [] \/ extra = None ->
  exists genAITools,
    processTools tools = inr genAITools
    /\ convertToolsToGenAI tools extra
       = inr {| tools := genAITools; toolConfig := None |}.
Proof.
  intros H. destruct (processTools_total tools) as [genAITools Hp].
  exists genAITools. split; [exact Hp|].
  unfold convertToolsToGenAI. rewrite Hp. do 2 f_equal.
  destruct H as [H| ->].
  - rewrite Hp in H. injection H as ->. reflexivity.
  - unfold createToolConfig. now destruct (bool_decide _).
Qed.

Lemma toolConfig_undefined_witness :
  exists genAITools,
    processTools [] = inr genAITools
    /\ convertToolsToGenAI []
         (Some {| toolChoice := Some (ChoiceString "any");
                  e_allowedFunctionNames := Some ["get_weather"] |})
       = inr {| tools := genAITools; toolConfig := None |}.
Proof.
  apply (toolConfig_undefined []
           (Some {| toolChoice := Some (ChoiceString "any");
                    e_allowedFunctionNames := Some ["get_weather"] |})).
  left. reflexivity.
Defined.

(** Without [extra] there is no config, even for a non-empty tool list. *)
Example convertToolsToGenAI_without_extra :
  convertToolsToGenAI [weather_tool] None
  = inr {| tools := [group [weather_declaration]]; toolConfig := None |}.
Proof. reflexivity. Qed.

End ToolsProperties.

(** * Further properties of the embeddings client *)

Section EmbeddingsFurther.

Import Embeddings.

(** ** The constructor *)

Lemma constructed_title_task env fields this :
  constructor env fields = inr this ->
  truthy_opt (title this) = true ->
  taskType this = Some "RETRIEVAL_DOCUMENT".
Proof.
  unfold constructor.
  replace ((fields ≫= p_title) ?? None) with (fields ≫= p_title)
    by now destruct (fields ≫= p_title).
  replace ((fields ≫= p_taskType) ?? None) with (fields ≫= p_taskType)
    by now destruct (fields ≫= p_taskType).
  destruct (truthy_opt (fields ≫= p_title)) eqn:Htitle;
    case_bool_decide as Htask; simpl; try discriminate;
    (destruct (_ ?? env _) as [k|]; [|discriminate]);
    (destruct (truthy k); [|discriminate]);
    intros [= <-]; simpl; congruence.
Qed.

(** What a successful construction establishes: the two model fields agree,
    newline stripping is on and the batch size is 100 whatever the fields
    say, the credential is not empty and is the one the client was built
    with, and a non-empty title comes with the task type
    ["RETRIEVAL_DOCUMENT"]. *)
Theorem constructor_invariants env fields this :
  constructor env fields = inr this ->
  modelName this = model this
  /\ stripNewLines this = true
  /\ maxBatchSize this = 100
  /\ (exists k, apiKey this = Some k /\ k <> "" /\ o_apiKey (client this) = k)
  /\ (truthy_opt (title this) = true ->
      taskType this = Some "RETRIEVAL_DOCUMENT").
Proof.
  unfold constructor.
  replace ((fields ≫= p_title) ?? None) with (fields ≫= p_title)
    by now destruct (fields ≫= p_title).
  replace ((fields ≫= p_taskType) ?? None) with (fields ≫= p_taskType)
    by now destruct (fields ≫= p_taskType).
  destruct (truthy_opt (fields ≫= p_title)) eqn:Htitle;
    case_bool_decide as Htask; simpl; try discriminate;
    (destruct (_ ?? env _) as [k|] eqn:Hk; [|discriminate]);
    (destruct k as [|a k]; [discriminate|]); simpl;
    intros [= <-]; simpl;
    (split; [reflexivity|]); (split; [reflexivity|]);
    (split; [reflexivity|]);
    (split; [eexists; split; [reflexivity|split; [discriminate|reflexivity]]|]);
    congruence.
Qed.

Lemma constructor_invariants_witness :
  modelName embeddings_plain = model embeddings_plain
  /\ stripNewLines embeddings_plain = true
  /\ maxBatchSize embeddings_plain = 100
  /\ (exists k, apiKey embeddings_plain = Some k /\ k <> ""
                /\ o_apiKey (client embeddings_plain) = k)
  /\ (truthy_opt (title embeddings_plain) = true ->
      taskType embeddings_plain = Some "RETRIEVAL_DOCUMENT").
Proof.
  apply (constructor_invariants empty_env (Some fields_keep_newlines)).
  reflexivity.
Defined.

(** The [apiKey] field shadows the environment: when the field is given,
    even as the empty string, [GOOGLE_API_KEY] is not consulted, so a
    non-empty field is the credential used and an empty one makes
    construction fail; the variable is the credential only when the field
    is absent. *)
Theorem apiKey_field_shadows_environment env fields :
  (forall k this,
     fields ≫= p_apiKey = Some k ->
     constructor env fields = inr this ->
     o_apiKey (client this) = k)
  /\ (fields ≫= p_apiKey = Some "" ->
      exists msg, constructor env fields = inl msg)
  /\ (forall this,
        fields ≫= p_apiKey = None ->
        constructor env fields = inr this ->
        env "GOOGLE_API_KEY" = Some (o_apiKey (client this))).
Proof.
  unfold constructor. split; [|split].
  - intros k this Hk. rewrite Hk; simpl.
    destruct (_ && _); [discriminate|].
    destruct (truthy k); [|discriminate]. now intros [= <-].
  - intros Hk. rewrite Hk; simpl. destruct (_ && _); eauto.
  - intros this Hk. rewrite Hk; simpl.
    destruct (_ && _); [discriminate|].
    destruct (env "GOOGLE_API_KEY") as [k|]; [|discriminate].
    destruct (truthy k); [|discriminate]. now intros [= <-].
Qed.

(** The title is checked before the credential: a non-empty title without
    the task type ["RETRIEVAL_DOCUMENT"] is reported as such whether or not
    a credential is available. *)
Theorem title_error_comes_first env fields :
  title_without_retrieval_document fields ->
  constructor env fields = inl title_error.
Proof.
  intros [(t & Ht & Hne) Htask]. unfold constructor.
  rewrite Ht; simpl.
  replace ((fields ≫= p_taskType) ?? None) with (fields ≫= p_taskType)
    by now destruct (fields ≫= p_taskType).
  rewrite bool_decide_eq_false_2 by exact Htask.
  destruct t; [congruence|reflexivity].
Qed.

Lemma title_error_comes_first_witness :
  constructor empty_env (Some fields_title_no_key) = inl title_error.
Proof.
  apply (title_error_comes_first empty_env (Some fields_title_no_key)).
  split; [exists "Report"; split; [reflexivity|discriminate]|discriminate].
Defined.

(** ** Cleaning *)

Lemma replace_newlines_idempotent (s : string) :
  replace_newlines (replace_newlines s) = replace_newlines s.
Proof.
  induction s as [|c r IH]; [reflexivity|]. simpl. rewrite IH. f_equal.
  destruct (Ascii.eqb c LF) eqn:E; [reflexivity|]. now rewrite E.
Qed.

Lemma replace_newlines_clean (s : string) :
  (forall i, String.get i s <> Some LF) -> replace_newlines s = s.
Proof.
  induction s as [|c r IH]; intros H; [reflexivity|]. simpl.
  rewrite IH by (intros i; exact (H (S i))).
  destruct (Ascii.eqb c LF) eqn:E; [|reflexivity].
  apply Ascii.eqb_eq in E as ->. now destruct (H 0).
Qed.

Lemma replace_newlines_append (s t : string) :
  replace_newlines (s +:+ t) = replace_newlines s +:+ replace_newlines t.
Proof.
  induction s as [|c r IH]; [reflexivity|].
  change (String c r +:+ t) with (String c (r +:+ t)). simpl.
  now rewrite IH.
Qed.

(** [_cleanText] keeps the length of the text, leaves a text without line
    feeds as it is, cleans the same way twice as once, and cleans a
    concatenation piece by piece. *)
Theorem cleanText_properties this text :
  String.length (_cleanText this text) = String.length text
  /\ _cleanText this (_cleanText this text) = _cleanText this text
  /\ ((forall i, String.get i text <> Some LF) -> _cleanText this text = text)
  /\ (forall more,
        _cleanText this (text +:+ more)
        = _cleanText this text +:+ _cleanText this more).
Proof.
  unfold _cleanText. destruct (stripNewLines this).
  - split; [apply replace_newlines_length|].
    split; [apply replace_newlines_idempotent|].
    split; [apply replace_newlines_clean|].
    intros more. apply replace_newlines_append.
  - repeat split; auto.
Qed.

(** After construction no line feed reaches the vendor, not even when the
    fields ask for [stripNewLines: false]: the constructor does not read
    that field. *)
Theorem constructed_client_sends_no_line_feed
    env fields this text documents w req content :
  constructor env fields = inr this ->
  req ∈ issued w (_embedQueryContent this text w).2
        ++ issued w (_embedDocumentsContent this documents w).2 ->
  content ∈ r_contents req ->
  forall i, String.get i content <> Some LF.
Proof.
  intros Hnew Hreq Hcontent.
  apply constructor_inr in Hnew as (_ & _ & _ & _ & Hstrip & _).
  assert (Hclean : exists raw, content = replace_newlines raw).
  { rewrite embedQueryContent_issued, embedDocumentsContent_issued in Hreq.
    rewrite elem_of_app, list_elem_of_singleton, list_elem_of_fmap in Hreq.
    unfold chunk_request, _cleanText in Hreq. rewrite Hstrip in Hreq.
    destruct Hreq as [-> | (chunk & -> & _)]; simpl in Hcontent.
    - apply list_elem_of_singleton in Hcontent. eauto.
    - apply list_elem_of_fmap in Hcontent as (raw & -> & _). eauto. }
  destruct Hclean as (raw & ->). apply replace_newlines_no_LF.
Qed.

Lemma constructed_client_sends_no_line_feed_witness :
  p_stripNewLines fields_keep_newlines = Some false
  /\ forall i, String.get i "a b" <> Some LF.
Proof.
  split; [reflexivity|].
  apply (constructed_client_sends_no_line_feed empty_env
           (Some fields_keep_newlines) embeddings_plain a_newline_b []
           (fresh echo_vendor) (chunk_request embeddings_plain [a_newline_b])).
  - reflexivity.
  - vm_compute. apply list_elem_of_here.
  - vm_compute. apply list_elem_of_here.
Defined.

(** ** The config block *)

(** No config is sent exactly when there is no non-empty task type, no
    non-empty title and no output dimensionality: an empty string counts
    as unset. *)
Theorem embedConfig_None_iff this :
  _embedConfig this = None
  <-> truthy_opt (taskType this) = false
      /\ truthy_opt (title this) = false
      /\ outputDimensionality this = None.
Proof.
  unfold _embedConfig.
  destruct (taskType this) as [[|? ?]|], (title this) as [[|? ?]|],
    (outputDimensionality this); simpl; split;
    try discriminate; try reflexivity; try (now intros (? & ? & ?)); auto.
Qed.

(** A request of a constructed client that carries a title carries the task
    type ["RETRIEVAL_DOCUMENT"] with it. *)
Theorem sent_title_has_retrieval_document
    env fields this text documents w req c t :
  constructor env fields = inr this ->
  req ∈ issued w (_embedQueryContent this text w).2
        ++ issued w (_embedDocumentsContent this documents w).2 ->
  r_config req = Some c ->
  c_title c = Some t ->
  c_taskType c = Some "RETRIEVAL_DOCUMENT" /\ t <> "".
Proof.
  intros Hnew Hreq Hc Ht.
  pose proof (constructed_title_task env fields this Hnew) as Htitle.
  apply issued_request in Hreq as [_ Hcfg]. rewrite Hcfg in Hc.
  apply embedConfig_Some in Hc as (_ & Hct & Hcl & _).
  rewrite Ht in Hcl.
  destruct (truthy_opt (title this)) eqn:E; [|discriminate].
  rewrite (Htitle eq_refl) in Hct. simpl in Hct. split; [exact Hct|].
  intros ->. rewrite <- Hcl in E. discriminate.
Qed.

Lemma sent_title_has_retrieval_document_witness :
  c_taskType (mkConfig (Some "RETRIEVAL_DOCUMENT") (Some "Report") None)
  = Some "RETRIEVAL_DOCUMENT"
  /\ "Report" <> "".
Proof.
  apply (sent_title_has_retrieval_document empty_env (Some fields_titled)
           embeddings_titled "q" [] (fresh echo_vendor)
           (chunk_request embeddings_titled ["q"])).
  - reflexivity.
  - vm_compute. apply list_elem_of_here.
  - reflexivity.
  - reflexivity.
Defined.

(** ** The query path *)

(** The query path sends one request whether the call succeeds or not, and
    rejects exactly when the vendor call does, with the same reason. *)
Theorem embedQuery_rejects_with_vendor this text w reason :
  issued w (_embedQueryContent this text w).2 = [chunk_request this [text]]
  /\ ((_embedQueryContent this text w).1 = rejected reason
      <-> vendor w (length (sent w)) (chunk_request this [text])
          = rejected reason).
Proof.
  split; [apply embedQueryContent_issued|].
  unfold _embedQueryContent, embedContent; simpl.
  change {| r_model := model this;
            r_contents := [_cleanText this text];
            r_config := _embedConfig this |}
    with (chunk_request this [text]).
  destruct (vendor w _ _) as [res|r]; simpl; split; congruence.
Qed.

(** ** More on chunks *)

Section ChunksFurther.

Context {A : Type} (n : nat) (Hn : 0 < n).

Lemma chunks_upto_length (fuel : nat) (l : list A) :
  length l <= fuel ->
  length (chunks_upto fuel l n) = (length l + n - 1) / n.
Proof using Hn.
  revert l; induction fuel as [|fuel IH]; intros l Hlen.
  - destruct l; [|simpl in Hlen; lia]. simpl.
    symmetry. apply Nat.div_small. lia.
  - destruct l as [|a l].
    { simpl. symmetry. apply Nat.div_small. lia. }
    cbn [chunks_upto length]. rewrite IH
      by (rewrite length_drop; simpl in *; lia).
    rewrite length_drop. cbn [length].
    replace (S (length l) + n - 1) with (length l + 1 * n) by lia.
    rewrite Nat.div_add by lia.
    destruct (decide (n <= S (length l))) as [Hle|Hgt].
    + replace (S (length l) - n + n - 1) with (length l) by lia. lia.
    + replace (S (length l) - n + n - 1) with (n - 1) by lia.
      rewrite !Nat.div_small by lia. lia.
Qed.

Lemma chunks_upto_sizes (fuel : nat) (l : list A) :
  Forall (fun c => 0 < length c <= n) (chunks_upto fuel l n).
Proof using Hn.
  revert l; induction fuel as [|fuel IH]; intros l; [constructor|].
  destruct l as [|a l]; [constructor|].
  cbn [chunks_upto]. constructor; [|apply IH].
  rewrite length_take. simpl. lia.
Qed.

End ChunksFurther.

Lemma concat_map_map {A B} (f : A -> B) (ls : list (list A)) :
  concat (map (map f) ls) = map f (concat ls).
Proof.
  induction ls as [|l ls IH]; [reflexivity|].
  simpl. now rewrite IH, map_app.
Qed.

(** ** The batch path *)

Lemma embedDocumentsContent_result this documents w :
  (_embedDocumentsContent this documents w).1
  = fulfilled
      (concat
         (imap (fun idx res =>
                  default []
                    (flatMap_callback
                       (chunkArray documents (maxBatchSize this)) idx res))
               (outcomes this documents w))).
Proof.
  unfold _embedDocumentsContent.
  rewrite embedDocumentsContent_allSettled.
  pose proof (flatMap_blocks this documents w) as Hmap; simpl in Hmap.
  now rewrite Hmap.
Qed.

(** The batch path never rejects, whatever the vendor does and however
    many calls fail: a failure of a call is not raised to the caller. *)
Theorem embedDocuments_never_rejects this documents w :
  exists result, (_embedDocumentsContent this documents w).1 = fulfilled result.
Proof. rewrite embedDocumentsContent_result. eauto. Qed.

(** When every call is rejected the batch path still sends all its
    requests and returns one empty vector per document. *)
Theorem embedDocuments_all_rejected this documents w :
  0 < maxBatchSize this ->
  (forall k o, outcomes this documents w !! k = Some o ->
               exists reason, o = rejected reason) ->
  (_embedDocumentsContent this documents w).1
  = fulfilled (replicate (length documents) [])
  /\ length (issued w (_embedDocumentsContent this documents w).2)
     = length (chunkArray documents (maxBatchSize this)).
Proof.
  intros Hn Hall. split.
  2:{ rewrite embedDocumentsContent_issued. apply length_map. }
  rewrite embedDocumentsContent_result. f_equal.
  set (chunks := chunkArray documents (maxBatchSize this)).
  set (blocks := imap _ _).
  assert (Hblock : forall k c, chunks !! k = Some c ->
                     blocks !! k = Some (replicate (length c) [])).
  { intros k c Hc. unfold blocks. rewrite list_lookup_imap.
    destruct (lookup_lt_is_Some_2 (outcomes this documents w) k) as [o Ho].
    { rewrite outcomes_length. now apply lookup_lt_Some in Hc. }
    rewrite Ho; simpl. destruct (Hall k o Ho) as [reason ->]. simpl.
    fold chunks. now rewrite Hc. }
  destruct (chunkArray_blocks (maxBatchSize this) Hn documents blocks)
    as [Hlen Hget].
  { apply Forall2_same_length_lookup_2.
    - unfold blocks. now rewrite length_imap, outcomes_length.
    - intros k b c Hb Hc. rewrite (Hblock k c Hc) in Hb.
      injection Hb as <-. apply length_replicate. }
  apply list_eq; intros i.
  destruct (decide (i < length documents)) as [Hi|Hi].
  - rewrite Hget by exact Hi.
    rewrite lookup_replicate_2 by exact Hi.
    pose proof (chunkArray_lookup (maxBatchSize this) Hn documents i Hi)
      as Hdoc.
    destruct (lookup_lt_is_Some_2 documents i Hi) as [d Hd].
    rewrite Hd in Hdoc. fold chunks in Hdoc.
    destruct (chunks !! (i / maxBatchSize this)) as [c|] eqn:Hc;
      [|discriminate].
    simpl in Hdoc. apply lookup_lt_Some in Hdoc.
    rewrite (Hblock _ c Hc). simpl. now apply lookup_replicate_2.
  - rewrite !lookup_ge_None_2; [reflexivity| |]; [|lia].
    rewrite length_replicate. lia.
Qed.

Lemma embedDocuments_all_rejected_witness :
  (_embedDocumentsContent small_batches ["a"; "b"; "c"]
     (fresh failing_vendor)).1
  = fulfilled [[]; []; []]
  /\ length (issued (fresh failing_vendor)
               (_embedDocumentsContent small_batches ["a"; "b"; "c"]
                  (fresh failing_vendor)).2)
     = 2.
Proof.
  apply (embedDocuments_all_rejected small_batches ["a"; "b"; "c"]
           (fresh failing_vendor)).
  - simpl. lia.
  - intros [|[|k]] o; [| |discriminate]; intros [= <-]; now eexists.
Defined.

(** The batch path sends every document exactly once, cleaned and in input
    order, in requests of at least one and at most [maxBatchSize] items. *)
Theorem embedDocuments_sends_each_document_once this documents w :
  0 < maxBatchSize this ->
  let requests := issued w (_embedDocumentsContent this documents w).2 in
  concat (map r_contents requests) = map (_cleanText this) documents
  /\ forall req, req ∈ requests ->
       0 < length (r_contents req) <= maxBatchSize this.
Proof.
  intros Hn requests. subst requests.
  rewrite embedDocumentsContent_issued. split.
  - rewrite map_map. unfold chunk_request; simpl.
    rewrite concat_map_map. f_equal.
    now apply chunkArray_concat.
  - intros req Hreq.
    apply list_elem_of_fmap in Hreq as (chunk & -> & Hchunk).
    unfold chunk_request; simpl. rewrite length_map.
    pose proof (chunks_upto_sizes (maxBatchSize this) Hn
                  (length documents) documents) as Hsizes.
    rewrite Forall_forall in Hsizes. now apply Hsizes.
Qed.

Lemma embedDocuments_sends_each_document_once_witness :
  let requests :=
    issued (fresh echo_vendor)
      (_embedDocumentsContent small_batches ["a"; a_newline_b; "c"]
         (fresh echo_vendor)).2 in
  concat (map r_contents requests)
  = map (_cleanText small_batches) ["a"; a_newline_b; "c"]
  /\ forall req, req ∈ requests ->
       0 < length (r_contents req) <= maxBatchSize small_batches.
Proof.
  apply (embedDocuments_sends_each_document_once small_batches
           ["a"; a_newline_b; "c"] (fresh echo_vendor)).
  simpl. lia.
Defined.

(** The number of vendor calls of the batch path is the number of documents
    divided by [maxBatchSize], rounded up: none for no document, one for up
    to [maxBatchSize] documents. *)
Theorem embedDocuments_number_of_calls this documents w :
  0 < maxBatchSize this ->
  let requests := issued w (_embedDocumentsContent this documents w).2 in
  length requests
  = (length documents + maxBatchSize this - 1) / maxBatchSize this
  /\ (documents = [] -> requests = [])
  /\ (documents <> [] -> length documents <= maxBatchSize this ->
      requests = [chunk_request this documents]).
Proof.
  intros Hn requests. subst requests.
  rewrite embedDocumentsContent_issued. split; [|split].
  - rewrite length_map. now apply chunks_upto_length.
  - now intros ->.
  - intros Hne Hle. destruct documents as [|d documents]; [congruence|].
    unfold chunkArray. cbn [length chunks_upto]. simpl in Hle.
    rewrite take_ge, drop_ge by (simpl; lia).
    now destruct (length documents).
Qed.

Lemma embedDocuments_number_of_calls_witness :
  length (issued (fresh echo_vendor)
            (_embedDocumentsContent small_batches ["a"; "b"; "c"; "d"; "e"]
               (fresh echo_vendor)).2)
  = 3.
Proof.
  apply (embedDocuments_number_of_calls small_batches
           ["a"; "b"; "c"; "d"; "e"] (fresh echo_vendor)).
  simpl. lia.
Defined.

(** For one document the batch path sends the very request the query path
    sends for it, whatever the vendor then does; and when the vendor
    answers that request with one embedding, the batch result is the query
    result in a one-item list. *)
Theorem single_document_is_a_query this doc w :
  0 < maxBatchSize this ->
  issued w (_embedDocumentsContent this [doc] w).2
  = issued w (_embedQueryContent this doc w).2
  /\ issued w (_embedQueryContent this doc w).2 = [chunk_request this [doc]]
  /\ forall res e,
       vendor w (length (sent w)) (chunk_request this [doc]) = fulfilled res ->
       embeddings res = Some [e] ->
       exists vector,
         (_embedQueryContent this doc w).1 = fulfilled vector
         /\ (_embedDocumentsContent this [doc] w).1 = fulfilled [vector].
Proof.
  intros Hn.
  assert (Hchunks : chunkArray [doc] (maxBatchSize this) = [[doc]]).
  { unfold chunkArray. simpl.
    destruct (maxBatchSize this) as [|m]; [lia|]. simpl.
    rewrite take_nil. reflexivity. }
  split; [|split].
  - rewrite embedDocumentsContent_issued, embedQueryContent_issued.
    now rewrite Hchunks.
  - apply embedQueryContent_issued.
  - intros res e Hres He.
    exists (default [] (values e)). split.
    + unfold _embedQueryContent, embedContent; simpl.
      change {| r_model := model this;
                r_contents := [_cleanText this doc];
                r_config := _embedConfig this |}
        with (chunk_request this [doc]).
      rewrite Hres; simpl. unfold first_values. now rewrite He.
    + rewrite embedDocumentsContent_result. unfold outcomes.
      rewrite Hchunks. simpl. rewrite Nat.add_0_r, Hres. simpl.
      now rewrite He.
Qed.

Lemma single_document_is_a_query_witness :
  issued (fresh failing_vendor)
    (_embedDocumentsContent embeddings_128 ["hello"] (fresh failing_vendor)).2
  = issued (fresh failing_vendor)
      (_embedQueryContent embeddings_128 "hello" (fresh failing_vendor)).2
  /\ issued (fresh echo_vendor)
       (_embedDocumentsContent embeddings_128 ["hello"] (fresh echo_vendor)).2
     = issued (fresh echo_vendor)
         (_embedQueryContent embeddings_128 "hello" (fresh echo_vendor)).2
  /\ exists vector,
       (_embedQueryContent embeddings_128 "hello" (fresh echo_vendor)).1
       = fulfilled vector
       /\ (_embedDocumentsContent embeddings_128 ["hello"]
             (fresh echo_vendor)).1
          = fulfilled [vector].
Proof.
  assert (Hn : 0 < maxBatchSize embeddings_128) by (simpl; lia).
  destruct (single_document_is_a_query embeddings_128 "hello"
              (fresh failing_vendor) Hn) as (Hrejected & _ & _).
  destruct (single_document_is_a_query embeddings_128 "hello"
              (fresh echo_vendor) Hn) as (Hsame & _ & Hresult).
  split; [exact Hrejected|]. split; [exact Hsame|].
  apply (Hresult
           {| embeddings :=
                Some [{| values := Some [0.5%float; 0.25%float] |}] |}
           {| values := Some [0.5%float; 0.25%float] |});
    reflexivity.
Defined.

End EmbeddingsFurther.

(** * Further properties of the tool normaliser *)

Section ToolsFurther.

Import Tools.

(** ** What [processTools] returns *)

Lemma processTools_unfold tools :
  processTools tools
  = inr (match List.find has_functionDeclarations (native_tools tools) with
         | Some _ =>
             merge_map (native_tools tools)
                       (concat (map converted_declarations tools))
         | None =>
             native_tools tools
             ++ (if bool_decide
                      (0 < length (concat (map converted_declarations tools)))
                 then [group (concat (map converted_declarations tools))]
                 else [])
         end).
Proof.
  unfold processTools. rewrite forEach_tool_inr. simpl.
  now destruct (List.find _ _).
Qed.

Lemma converted_length tools :
  Forall (fun t => is_converted t = true) tools ->
  length (concat (map converted_declarations tools)) = length tools.
Proof.
  induction 1 as [|[t|t|t] tools Ht _ IH]; simpl; try discriminate; auto.
Qed.

Lemma converted_names tools :
  map name (concat (map converted_declarations tools)) = omap tool_name tools.
Proof.
  induction tools as [|[t|t|t] tools IH]; [reflexivity|..].
  - change (name (convertStructuredTool t)
            :: map name (concat (map converted_declarations tools))
            = st_name t :: omap tool_name tools).
    now rewrite IH.
  - change (f_name (function t)
            :: map name (concat (map converted_declarations tools))
            = f_name (function t) :: omap tool_name tools).
    now rewrite IH.
  - exact IH.
Qed.

Lemma converted_native_tools tools :
  Forall (fun t => is_converted t = true) tools -> native_tools tools = [].
Proof.
  induction 1 as [|[t|t|t] tools Ht _ IH]; simpl; try discriminate; auto.
Qed.

Lemma length_merge_map natives decls :
  length (merge_map natives decls) = length natives.
Proof.
  revert decls; induction natives as [|t natives IH]; intros decls;
    [reflexivity|].
  simpl. destruct (_ && _); simpl; now rewrite IH.
Qed.

(** Without a pre-existing group, the converted declarations, of
    framework-native and OpenAI-style tools alike, go into one new group
    placed after all the native tools, which keep their order. *)
Theorem processTools_appends_group tools :
  Forall (fun t => has_functionDeclarations t = false) (native_tools tools) ->
  Exists (fun t => is_converted t = true) tools ->
  processTools tools
  = inr (native_tools tools
         ++ [group (concat (map converted_declarations tools))]).
Proof.
  intros Hnone Hconv. rewrite processTools_unfold.
  rewrite find_no_group by exact Hnone.
  rewrite bool_decide_eq_true_2; [reflexivity|].
  apply converted_nonempty in Hconv.
  destruct (concat _); [congruence|simpl; lia].
Qed.

Lemma processTools_appends_group_witness :
  processTools [time_tool; NativeTool code_execution; weather_tool]
  = inr [code_execution; group [time_declaration; weather_declaration]].
Proof.
  apply (processTools_appends_group
           [time_tool; NativeTool code_execution; weather_tool]).
  - repeat constructor.
  - apply Exists_cons_hd. reflexivity.
Defined.

Lemma processTools_only_native_witness :
  processTools [NativeTool code_execution; NativeTool search_group_with_keys;
                NativeTool (group [lookup_declaration])]
  = inr [code_execution; search_group_with_keys; group [lookup_declaration]].
Proof.
  apply (processTools_only_native
           [NativeTool code_execution; NativeTool search_group_with_keys;
            NativeTool (group [lookup_declaration])]).
  repeat constructor.
Defined.

(** A non-empty list of framework-native and OpenAI-style tools, in any
    mix, gives one group with one declaration per tool, carrying the
    tools' names in input order. *)
Theorem converted_tools_one_group tools :
  tools <> [] ->
  Forall (fun t => is_converted t = true) tools ->
  exists decls,
    processTools tools = inr [group decls]
    /\ length decls = length tools
    /\ map Some (map name decls) = map tool_name tools.
Proof.
  intros Hne Hall.
  exists (concat (map converted_declarations tools)).
  split; [|split].
  - rewrite processTools_unfold, converted_native_tools by exact Hall.
    rewrite bool_decide_eq_true_2; [reflexivity|].
    rewrite converted_length by exact Hall.
    destruct tools; [congruence|simpl; lia].
  - now apply converted_length.
  - rewrite converted_names. clear Hne.
    induction Hall as [|[t|t|t] tools Ht _ IH];
      [reflexivity| | |discriminate].
    + change (Some (st_name t) :: map Some (omap tool_name tools)
              = Some (st_name t) :: map tool_name tools).
      now rewrite IH.
    + change (Some (f_name (function t)) :: map Some (omap tool_name tools)
              = Some (f_name (function t)) :: map tool_name tools).
      now rewrite IH.
Qed.

Lemma converted_tools_one_group_witness :
  exists decls,
    processTools [time_tool; weather_tool] = inr [group decls]
    /\ length decls = 2
    /\ map Some (map name decls) = [Some "get_time"; Some "get_weather"].
Proof.
  apply (converted_tools_one_group [time_tool; weather_tool]).
  - discriminate.
  - repeat constructor.
Defined.

(** ** Nothing is lost *)

Lemma find_group_Exists natives :
  (exists g, List.find has_functionDeclarations natives = Some g)
  <-> Exists (fun t => has_functionDeclarations t = true) natives.
Proof.
  induction natives as [|t natives IH]; simpl.
  - split; [intros [g Hg]; discriminate|intros H; inversion H].
  - destruct (has_functionDeclarations t) eqn:Ht.
    + split; [intros _; now apply Exists_cons_hd|eauto].
    + rewrite IH. split; [now apply Exists_cons_tl|].
      intros H. inversion H; subst; [congruence|assumption].
Qed.

Lemma all_declarations_app l1 l2 :
  all_declarations (l1 ++ l2) = all_declarations l1 ++ all_declarations l2.
Proof. unfold all_declarations. now rewrite map_app, concat_app. Qed.

Lemma all_declarations_no_group natives :
  Forall (fun t => has_functionDeclarations t = false) natives ->
  all_declarations natives = [].
Proof.
  induction 1 as [|t natives Ht _ IH]; [reflexivity|].
  unfold all_declarations in *. simpl. rewrite IH.
  unfold get_functionDeclarations, has_functionDeclarations in *.
  now destruct (functionDeclarations t).
Qed.

Lemma merge_map_declarations natives decls :
  Exists (fun t => has_functionDeclarations t = true) natives ->
  all_declarations (merge_map natives decls)
  ≡ₚ all_declarations natives ++ decls.
Proof.
  intros Hex. induction Hex as [t natives Ht | t natives _ IH].
  - simpl. rewrite Ht, andb_true_r. case_bool_decide as Hpos.
    + rewrite merge_map_nil. unfold all_declarations. simpl.
      rewrite <- !app_assoc. apply Permutation_app_head, Permutation_app_comm.
    + destruct decls; [|simpl in Hpos; lia].
      now rewrite merge_map_nil, app_nil_r.
  - simpl. destruct (_ && _) eqn:Hmerge.
    + rewrite merge_map_nil. unfold all_declarations. simpl.
      rewrite <- !app_assoc. apply Permutation_app_head, Permutation_app_comm.
    + change (all_declarations (t :: merge_map natives decls))
        with (default [] (get_functionDeclarations t)
              ++ all_declarations (merge_map natives decls)).
      change (all_declarations (t :: natives))
        with (default [] (get_functionDeclarations t)
              ++ all_declarations natives).
      rewrite IH. now rewrite app_assoc.
Qed.

(** Tool processing loses and duplicates nothing: the declarations of the
    returned tools are those of the native tools together with all the
    converted ones, each as many times as it came in. *)
Theorem processTools_conserves_declarations tools :
  exists genAITools,
    processTools tools = inr genAITools
    /\ all_declarations genAITools
       ≡ₚ all_declarations (native_tools tools)
          ++ concat (map converted_declarations tools).
Proof.
  rewrite processTools_unfold. eexists. split; [reflexivity|].
  destruct (List.find _ _) as [g|] eqn:Hfind.
  - apply merge_map_declarations, find_group_Exists. eauto.
  - rewrite all_declarations_app. apply Permutation_app_head.
    case_bool_decide as Hpos.
    + unfold all_declarations. simpl. now rewrite app_nil_r.
    + destruct (concat _); [reflexivity|simpl in Hpos; lia].
Qed.

(** The native tools' number is kept, unless a group is appended: the
    result has as many entries as there are native tools, plus one when no
    native tool carries a group and something was converted.  In
    particular the result is empty only for the empty input. *)
Theorem processTools_length tools :
  exists genAITools,
    processTools tools = inr genAITools
    /\ length (native_tools tools) <= length genAITools
       <= S (length (native_tools tools))
    /\ (genAITools = [] <-> tools = []).
Proof.
  rewrite processTools_unfold. eexists. split; [reflexivity|].
  assert (Hlen : length (native_tools tools)
                 <= length
                      match List.find has_functionDeclarations
                              (native_tools tools) with
                      | Some _ =>
                          merge_map (native_tools tools)
                            (concat (map converted_declarations tools))
                      | None =>
                          native_tools tools
                          ++ (if bool_decide
                                   (0 < length
                                          (concat
                                             (map converted_declarations
                                                  tools)))
                              then [group
                                      (concat
                                         (map converted_declarations tools))]
                              else [])
                      end
                 <= S (length (native_tools tools))).
  { destruct (List.find _ _).
    - rewrite length_merge_map. lia.
    - rewrite length_app. case_bool_decide; simpl; lia. }
  split; [exact Hlen|]. split.
  - intros Hnil. rewrite Hnil in Hlen. simpl in Hlen.
    destruct tools as [|t tools]; [reflexivity|exfalso].
    destruct (native_tools (t :: tools)) as [|g gs] eqn:Hnat;
      [|simpl in Hlen; lia].
    simpl in Hnil. case_bool_decide as Hpos; [discriminate|].
    apply Hpos. destruct t as [t|t|t]; simpl; try lia.
    simpl in Hnat. discriminate.
  - now intros ->.
Qed.

(** The entry that receives the converted declarations is rebuilt with the
    declarations only: the other keys of the first group do not survive
    the merge. *)
Theorem merged_group_loses_other_keys tools pre g post :
  native_tools tools = pre ++ g :: post ->
  Forall (fun t => has_functionDeclarations t = false) pre ->
  has_functionDeclarations g = true ->
  Exists (fun t => is_converted t = true) tools ->
  exists genAITools merged,
    processTools tools = inr genAITools
    /\ genAITools !! length pre = Some merged
    /\ otherKeys merged = [].
Proof.
  intros Hnat Hpre Hg Hconv. rewrite processTools_unfold, Hnat.
  rewrite find_first_group by assumption.
  rewrite merge_map_first_group; auto using converted_nonempty.
  eexists; eexists. split; [reflexivity|].
  split; [now apply list_lookup_middle|reflexivity].
Qed.

Lemma merged_group_loses_other_keys_witness :
  exists genAITools merged,
    processTools [NativeTool search_group_with_keys; weather_tool]
    = inr genAITools
    /\ genAITools !! 0 = Some merged
    /\ otherKeys merged = [].
Proof.
  apply (merged_group_loses_other_keys
           [NativeTool search_group_with_keys; weather_tool]
           [] search_group_with_keys []).
  - reflexivity.
  - constructor.
  - reflexivity.
  - apply Exists_cons_tl, Exists_cons_hd. reflexivity.
Defined.

(** ** The tool config *)

Lemma includes_is_string names choice :
  includes names choice = true -> is_string choice = true.
Proof. now destruct choice as [[s|o]|]. Qed.

Lemma createToolConfig_is_Some genAITools extra :
  genAITools <> [] ->
  is_Some (createToolConfig genAITools (Some extra))
  <-> is_string (toolChoice extra) = true
      \/ is_Some (e_allowedFunctionNames extra).
Proof.
  intros Hne. unfold createToolConfig.
  rewrite bool_decide_eq_false_2
    by (destruct genAITools; [congruence|discriminate]).
  destruct (truthy_choice (toolChoice extra)
            && includes ["any"; "auto"; "none"] (toolChoice extra)) eqn:Hmap.
  - apply andb_true_iff in Hmap as [_ Hinc].
    apply includes_is_string in Hinc. split; eauto.
  - destruct (is_string (toolChoice extra)); simpl.
    + split; eauto.
    + case_bool_decide as Hallowed.
      * split; eauto.
      * split; [intros [c Hc]; discriminate|].
        intros [H|H]; [discriminate|contradiction].
Qed.

Lemma createToolConfig_None genAITools :
  createToolConfig genAITools None = None.
Proof.
  unfold createToolConfig.
  destruct (bool_decide (length genAITools = 0)); reflexivity.
Qed.

Lemma processTools_nil_iff tools genAITools :
  processTools tools = inr genAITools ->
  genAITools = [] <-> tools = [].
Proof.
  rewrite processTools_unfold. intros [= <-]. split.
  - intros Hnil. destruct tools as [|t tools]; [reflexivity|exfalso].
    destruct (native_tools (t :: tools)) as [|g gs] eqn:Hnat.
    + simpl in Hnil. case_bool_decide as Hpos; [discriminate|].
      apply Hpos. destruct t as [t|t|t]; simpl; try lia.
      simpl in Hnat. discriminate.
    + destruct (List.find _ _).
      * apply (f_equal length) in Hnil.
        rewrite length_merge_map in Hnil. discriminate.
      * discriminate.
  - intros ->. reflexivity.
Qed.

(** A result of [convertToolsToGenAI] has a tool config exactly when the
    input list is not empty and [extra] comes with a string tool choice or
    with allowed function names; its tools are those of [processTools]. *)
Theorem convertToolsToGenAI_config_iff tools extra converted :
  convertToolsToGenAI tools extra = inr converted ->
  processTools tools = inr (Tools.tools converted)
  /\ (is_Some (toolConfig converted)
      <-> tools <> []
          /\ exists e,
               extra = Some e
               /\ (is_string (toolChoice e) = true
                   \/ is_Some (e_allowedFunctionNames e))).
Proof.
  unfold convertToolsToGenAI.
  destruct (processTools tools) as [err|genAITools] eqn:Hp; [discriminate|].
  intros [= <-]. simpl. split; [reflexivity|].
  pose proof (processTools_nil_iff tools genAITools Hp) as Hnil.
  destruct extra as [e|].
  - destruct (decide (tools = [])) as [Hempty|Hne].
    + apply Hnil in Hempty as Hg. rewrite Hg. simpl.
      split; [intros [c Hc]; discriminate|]. now intros [H _].
    + assert (Hg : genAITools <> []) by (intros H; now apply Hnil in H).
      rewrite (createToolConfig_is_Some genAITools e Hg).
      split; [intros H; split; [exact Hne|eauto]|].
      now intros [_ (e' & [= <-] & H)].
  - rewrite createToolConfig_None.
    split; [intros [c Hc]; discriminate|].
    now intros [_ (e & He & _)].
Qed.

Lemma convertToolsToGenAI_config_iff_witness :
  let converted :=
    {| tools := [group [weather_declaration]];
       toolConfig :=
         Some {| functionCallingConfig :=
                   {| mode := ANY;
                      allowedFunctionNames := Some ["get_weather"] |} |} |} in
  let extra := Some {| toolChoice := Some (ChoiceString "get_weather");
                       e_allowedFunctionNames := None |} in
  processTools [weather_tool] = inr (tools converted)
  /\ (is_Some (toolConfig converted)
      <-> [weather_tool] <> []
          /\ exists e,
               extra = Some e
               /\ (is_string (toolChoice e) = true
                   \/ is_Some (e_allowedFunctionNames e))).
Proof.
  apply (convertToolsToGenAI_config_iff [weather_tool]
           (Some {| toolChoice := Some (ChoiceString "get_weather");
                    e_allowedFunctionNames := None |})).
  reflexivity.
Defined.

Lemma toolConfig_mode_iff genAITools extra config :
  createToolConfig genAITools (Some extra) = Some config ->
  let m := mode (functionCallingConfig config) in
  (m = AUTO <-> toolChoice extra = Some (ChoiceString "auto"))
  /\ (m = NONE <-> toolChoice extra = Some (ChoiceString "none"))
  /\ (m = ANY <-> toolChoice extra <> Some (ChoiceString "auto")
                  /\ toolChoice extra <> Some (ChoiceString "none")).
Proof.
  unfold createToolConfig. destruct (bool_decide _); [discriminate|].
  destruct (toolChoice extra) as [[s|o]|] eqn:Hchoice; simpl.
  - destruct (truthy s && bool_decide (s ∈ ["any"; "auto"; "none"]))
      eqn:Hmap.
    + apply andb_true_iff in Hmap as [_ Hin].
      apply bool_decide_eq_true_1 in Hin.
      rewrite !elem_of_cons, elem_of_nil in Hin.
      destruct Hin as [->|[->|[->|[]]]]; intros [= <-]; simpl;
        repeat split; try discriminate; try congruence;
        try (now intros [? ?]).
    + assert (Hauto : s <> "auto").
      { intros ->. discriminate Hmap. }
      assert (Hnone : s <> "none").
      { intros ->. discriminate Hmap. }
      intros [= <-]; simpl.
      repeat split; try discriminate; congruence.
  - destruct (bool_decide _); [|discriminate].
    intros [= <-]; simpl. repeat split; discriminate.
  - destruct (bool_decide _); [|discriminate].
    intros [= <-]; simpl. repeat split; discriminate.
Qed.

(** A tool config never has the mode [MODE_UNSPECIFIED] or [VALIDATED]:
    the mode is [AUTO] exactly for the tool choice ["auto"], [NONE]
    exactly for ["none"], and [ANY] in every other case. *)
Theorem toolConfig_mode genAITools extra config :
  createToolConfig genAITools (Some extra) = Some config ->
  let m := mode (functionCallingConfig config) in
  (m = ANY \/ m = AUTO \/ m = NONE)
  /\ (m = AUTO <-> toolChoice extra = Some (ChoiceString "auto"))
  /\ (m = NONE <-> toolChoice extra = Some (ChoiceString "none"))
  /\ (m = ANY <-> toolChoice extra <> Some (ChoiceString "auto")
                  /\ toolChoice extra <> Some (ChoiceString "none")).
Proof.
  intros Hconfig m.
  destruct (toolConfig_mode_iff genAITools extra config Hconfig)
    as (Hauto & Hnone & Hany).
  split; [|split; [exact Hauto|split; [exact Hnone|exact Hany]]].
  fold m in Hauto, Hnone, Hany.
  destruct (toolChoice extra) as [[s|o]|].
  - destruct (String.eqb s "auto") eqn:Ea.
    { apply String.eqb_eq in Ea as ->. right; left. now apply Hauto. }
    destruct (String.eqb s "none") eqn:En.
    { apply String.eqb_eq in En as ->. right; right. now apply Hnone. }
    apply String.eqb_neq in Ea, En.
    left. apply Hany. split; congruence.
  - left. apply Hany. split; discriminate.
  - left. apply Hany. split; discriminate.
Qed.

Lemma toolConfig_mode_witness :
  let extra := {| toolChoice := Some (ChoiceString "none");
                  e_allowedFunctionNames := Some ["get_weather"] |} in
  let config := {| functionCallingConfig :=
                     {| mode := NONE;
                        allowedFunctionNames := Some ["get_weather"] |} |} in
  let m := mode (functionCallingConfig config) in
  (m = ANY \/ m = AUTO \/ m = NONE)
  /\ (m = AUTO <-> toolChoice extra = Some (ChoiceString "auto"))
  /\ (m = NONE <-> toolChoice extra = Some (ChoiceString "none"))
  /\ (m = ANY <-> toolChoice extra <> Some (ChoiceString "auto")
                  /\ toolChoice extra <> Some (ChoiceString "none")).
Proof.
  apply (toolConfig_mode [group [weather_declaration]]
           {| toolChoice := Some (ChoiceString "none");
              e_allowedFunctionNames := Some ["get_weather"] |}
           {| functionCallingConfig :=
                {| mode := NONE;
                   allowedFunctionNames := Some ["get_weather"] |} |}).
  reflexivity.
Defined.

(** A tool choice that is not a string (absent, or an object) names no
    function: the config then exists only when allowed function names are
    supplied, and it is mode [ANY] with exactly those names. *)
Theorem toolChoice_not_a_string genAITools extra :
  genAITools <> [] ->
  is_string (toolChoice extra) = false ->
  createToolConfig genAITools (Some extra)
  = (fun names =>
       {| functionCallingConfig :=
            {| mode := ANY; allowedFunctionNames := Some names |} |})
    <$> e_allowedFunctionNames extra.
Proof.
  intros Hne Hstr. unfold createToolConfig.
  rewrite bool_decide_eq_false_2
    by (destruct genAITools; [congruence|discriminate]).
  destruct (toolChoice extra) as [[s|o]|]; [discriminate| |];
    destruct (e_allowedFunctionNames extra) as [names|]; simpl;
    now rewrite ?app_nil_r.
Qed.

Lemma toolChoice_not_a_string_witness :
  createToolConfig [group [weather_declaration]]
    (Some {| toolChoice := Some (ChoiceObject [("type", JString "function")]);
             e_allowedFunctionNames := Some ["get_weather"] |})
  = Some {| functionCallingConfig :=
              {| mode := ANY;
                 allowedFunctionNames := Some ["get_weather"] |} |}.
Proof.
  apply (toolChoice_not_a_string [group [weather_declaration]]
           {| toolChoice := Some (ChoiceObject [("type", JString "function")]);
              e_allowedFunctionNames := Some ["get_weather"] |}).
  - discriminate.
  - reflexivity.
Defined.

(** The tool config depends on the tools only through their presence: a
    forced function name is not checked against the declared functions. *)
Theorem toolConfig_ignores_declarations genAITools genAITools' extra :
  genAITools <> [] ->
  genAITools' <> [] ->
  createToolConfig genAITools extra = createToolConfig genAITools' extra.
Proof.
  intros Hne Hne'.
  destruct genAITools, genAITools'; [congruence..|reflexivity].
Qed.

Lemma toolConfig_ignores_declarations_witness :
  createToolConfig [group [weather_declaration]]
    (Some {| toolChoice := Some (ChoiceString "get_time");
             e_allowedFunctionNames := None |})
  = createToolConfig [code_execution]
      (Some {| toolChoice := Some (ChoiceString "get_time");
               e_allowedFunctionNames := None |}).
Proof.
  apply (toolConfig_ignores_declarations [group [weather_declaration]]
           [code_execution]); discriminate.
Defined.

End ToolsFurther.
